(** * SkyFox64: the relay (server.js) and the downstream connection
      manager (src/BlueSkyVis.tsx), as transition systems.

    Every callback of the source is a state transformer; the event loop
    runs one callback at a time, so a run of the program is a list of
    events folded over the state.  What the platform contributes (the
    transport's readyState, timers, the outcome of JSON.parse, random
    draws) is carried by the state or by the event that delivers it.
    Console output is not modelled. *)

From Stdlib Require Import ZArith Lia Bool.
From stdpp Require Import base option list strings gmap.

Open Scope Z_scope.

(** WebSocket.readyState *)
Inductive ReadyState := CONNECTING | OPEN | CLOSING | CLOSED.

#[global] Instance ReadyState_eq_dec : EqDecision ReadyState.
Proof. solve_decision. Defined.

(** ** server.js *)
Module Relay.

(** A downstream handle is the [ws] object handed to
    [wss.on('connection')]; objects are told apart by identity. *)
Definition Handle := nat.

(** [new Set()]: insertion ordered, [add] of a member changes nothing. *)
Definition Set_add (x : Handle) (s : list Handle) : list Handle :=
  if decide (x ∈ s) then s else s ++ [x].

Definition Set_delete (x : Handle) (s : list Handle) : list Handle :=
  filter (λ y, y ≠ x) s.

Definition Set_size (s : list Handle) : nat := length s.

Record Server := mkServer {
  (** [const connectedClients = new Set()] *)
  connectedClients : list Handle;
  (** [let jetstreamConnection = null], else an index into [upstream] *)
  jetstreamConnection : option nat;
  (** every upstream socket made by [new WebSocket(JETSTREAM_URL)], in
      creation order, with its readyState *)
  upstream : list ReadyState;
  (** [client.readyState] for each downstream handle *)
  clientState : Handle → ReadyState;
  (** the calls [client.send(...)], oldest first *)
  sent : list (Handle * string);
  (** the pending [setTimeout(connectToJetstream, d)] timers *)
  timeouts : list Z;
  (** every delay handed to [setTimeout] so far, oldest first *)
  scheduled : list Z
}.

Definition set_clientState (h : Handle) (r : ReadyState)
    (f : Handle → ReadyState) : Handle → ReadyState :=
  λ x, if decide (x = h) then r else f x.

Section WithPayload.
(** The upstream [data] argument and its [data.toString()]. *)
Context {Buffer : Type} (toString : Buffer → string).

Inductive Event :=
| Connection (ws : Handle)            (* wss 'connection' *)
| ClientClose (ws : Handle)           (* ws 'close' *)
| ClientError (ws : Handle)           (* ws 'error' *)
| Transport (ws : Handle) (r : ReadyState)  (* readyState moves, no callback *)
| JetOpen (c : nat)                   (* upstream 'open' *)
| JetMessage (c : nat) (data : Buffer)  (* upstream 'message' *)
| JetClose (c : nat)                  (* upstream 'close' *)
| JetError (c : nat)                  (* upstream 'error' *)
| TimerFire.                          (* the oldest pending timeout runs *)

(** [function connectToJetstream()] *)
Definition connectToJetstream (s : Server) : Server :=
  mkServer (connectedClients s)
           (Some (length (upstream s)))
           (upstream s ++ [CONNECTING])
           (clientState s) (sent s) (timeouts s) (scheduled s).

(** [connectedClients.forEach(client => { if (client.readyState ===
    WebSocket.OPEN) client.send(data.toString()) })] *)
Definition broadcast (data : Buffer) (s : Server) : Server :=
  let calls :=
    (λ client, (client, toString data)) <$>
      filter (λ client, clientState s client = OPEN) (connectedClients s) in
  mkServer (connectedClients s) (jetstreamConnection s) (upstream s)
           (clientState s) (sent s ++ calls) (timeouts s) (scheduled s).

(** [setTimeout(connectToJetstream, 5000)] *)
Definition on_jet_close (s : Server) : Server :=
  mkServer (connectedClients s) (jetstreamConnection s) (upstream s)
           (clientState s) (sent s)
           (timeouts s ++ [5000]) (scheduled s ++ [5000]).

Definition set_upstream (c : nat) (r : ReadyState) (s : Server) : Server :=
  mkServer (connectedClients s) (jetstreamConnection s)
           (<[c := r]> (upstream s))
           (clientState s) (sent s) (timeouts s) (scheduled s).

Definition set_clients (cs : list Handle) (f : Handle → ReadyState)
    (s : Server) : Server :=
  mkServer cs (jetstreamConnection s) (upstream s) f
           (sent s) (timeouts s) (scheduled s).

Definition step (s : Server) (e : Event) : Server :=
  match e with
  | Connection ws =>
      set_clients (Set_add ws (connectedClients s))
                  (set_clientState ws OPEN (clientState s)) s
  | ClientClose ws =>
      set_clients (Set_delete ws (connectedClients s))
                  (set_clientState ws CLOSED (clientState s)) s
  | ClientError ws =>
      set_clients (Set_delete ws (connectedClients s)) (clientState s) s
  | Transport ws r =>
      set_clients (connectedClients s)
                  (set_clientState ws r (clientState s)) s
  | JetOpen c => set_upstream c OPEN s
  | JetMessage _ data => broadcast data s
  | JetClose c => on_jet_close (set_upstream c CLOSED s)
  | JetError _ => s
  | TimerFire =>
      match timeouts s with
      | [] => s
      | _ :: rest =>
          connectToJetstream
            (mkServer (connectedClients s) (jetstreamConnection s)
                      (upstream s) (clientState s) (sent s) rest
                      (scheduled s))
      end
  end.

Definition run (s : Server) (tr : list Event) : Server :=
  foldl step s tr.

(** The module body: an empty set, no connection, then
    [connectToJetstream()] at line 78. *)
Definition boot : Server :=
  connectToJetstream
    (mkServer [] None [] (λ _, CONNECTING) [] [] []).



Definition is_jet_close (e : Event) : bool :=
  match e with JetClose _ => true | _ => false end.

(** How many upstream 'close' events a run holds. *)
Definition closes (tr : list Event) : nat :=
  length (filter (λ e, is_jet_close e = true) tr).


End WithPayload.

(** Two viewers connect and one payload arrives. *)
Definition sample_run : list (@Event string) :=
  [Connection 1%nat; Connection 2%nat; JetMessage 0 "a"].

(** *** The HTTP side *)

Record Health := mkHealth {
  status : string;
  clients : nat;
  jetstream : bool
}.

(** [jetstreamConnection?.readyState === WebSocket.OPEN] *)
Definition jetstream_open (s : Server) : bool :=
  match jetstreamConnection s with
  | None => false
  | Some c => bool_decide (upstream s !! c = Some OPEN)
  end.

(** The body of the [/health] callback. *)
Definition health (s : Server) : Health :=
  mkHealth "ok" (Set_size (connectedClients s)) (jetstream_open s).

Inductive Handler := SendIndex | HealthJson.

(** What [app] holds after the module body ran: [app.use] and [app.get]
    append to one stack. *)
Inductive Layer :=
| Static (root : string)
| Get (pattern : string) (h : Handler).

Definition app : list Layer :=
  [ Static "dist";             (* line 14 *)
    Get "*" SendIndex;         (* line 17 *)
    Get "/health" HealthJson   (* line 81 *) ].

Inductive Response :=
| StaticFile (root path : string)
| IndexHtml
| Json (body : Health)
| NotFound.

Definition path_matches (pattern path : string) : bool :=
  bool_decide (pattern = "*") || bool_decide (pattern = path).

(** Express walks the stack in registration order; the first layer
    that answers ends the walk.  [exists_in root path] says whether
    [express.static] finds a file to serve. *)
Fixpoint dispatch (exists_in : string → string → bool) (stack : list Layer)
    (path : string) (s : Server) : Response :=
  match stack with
  | [] => NotFound
  | Static root :: rest =>
      if exists_in root path then StaticFile root path
      else dispatch exists_in rest path s
  | Get pattern h :: rest =>
      if path_matches pattern path then
        match h with
        | SendIndex => IndexHtml
        | HealthJson => Json (health s)
        end
      else dispatch exists_in rest path s
  end.

(** A GET request to the running server. *)
Definition get (exists_in : string → string → bool) (path : string)
    (s : Server) : Response :=
  dispatch exists_in app path s.

End Relay.

(** ** src/BlueSkyVis.tsx: decoding a relay payload *)
Module Decoder.

(** A JSON number, by the two things this code can observe of it:
    its ToBoolean and its ToString. *)
Record JSNumber := mkNumber { number_truthy : bool; number_text : string }.

(** What [JSON.parse] returns. *)
#[warnings="-register-all"]
Inductive JSON :=
| JNull
| JBool (b : bool)
| JNum (n : JSNumber)
| JStr (s : string)
| JArr (items : list JSON)
| JObj (fields : list (string * JSON)).

(** A JavaScript value here is [option JSON], [None] being [undefined]. *)
Definition Value := option JSON.

Inductive JSError := SyntaxError | TypeError.

(** How a callback ends. *)
Inductive Completion := Normal | Throws (e : JSError).

(** The argument of a 'message' event, by what [JSON.parse(event.data)]
    makes of it. *)
Inductive Payload :=
| ParseThrows
| ParseReturns (data : JSON).

(** ToBoolean *)
Definition truthy (v : Value) : bool :=
  match v with
  | None | Some JNull => false
  | Some (JBool b) => b
  | Some (JNum n) => number_truthy n
  | Some (JStr s) => negb (bool_decide (s = ""))
  | Some (JArr _) | Some (JObj _) => true
  end.

Fixpoint own (k : string) (fields : list (string * JSON)) : Value :=
  match fields with
  | [] => None
  | (k', v) :: rest => if bool_decide (k' = k) then Some v else own k rest
  end.

(** [v.k] on a value that is neither null nor undefined, for the keys
    this file reads (commit, record, text, did, rkey): none of them is
    found on a prototype, so only an object's own property answers. *)
Definition js_get (k : string) (v : JSON) : Value :=
  match v with
  | JObj fields => own k fields
  | _ => None
  end.

(** [v?.k] *)
Definition opt_get (k : string) (v : Value) : Value :=
  match v with
  | None | Some JNull => None
  | Some x => js_get k x
  end.

(** [v.k]: a TypeError on null and undefined *)
Definition dot_get (k : string) (v : Value) : JSError + Value :=
  match v with
  | None | Some JNull => inl TypeError
  | Some x => inr (js_get k x)
  end.

(** ToString, as a template literal applies it *)
Fixpoint js_toString (v : JSON) : string :=
  match v with
  | JNull => "null"
  | JBool true => "true"
  | JBool false => "false"
  | JNum n => number_text n
  | JStr s => s
  | JArr items =>
      (fix join (l : list JSON) : string :=
         match l with
         | [] => ""
         | x :: rest =>
             let item := match x with JNull => "" | _ => js_toString x end in
             match rest with
             | [] => item
             | _ :: _ => item +:+ "," +:+ join rest
             end
         end) items
  | JObj _ => "[object Object]"
  end.

(** What [createMessage] takes from its surroundings. *)
Record RenderEnv := mkEnv {
  (** [sceneRef.current], [texturePoolRef.current] and
      [textWrapperRef.current] are all set *)
  ready : bool;
  (** [Math.floor(Math.random() * (4 + 1 * specialFrequency))] *)
  wallDraw : Z;
  (** [discardFraction > 0 && Math.random() < discardFraction] *)
  discardDraw : bool
}.

(** The pushed object: the text drawn on its texture, [special] and
    [blueSkyUrl]; mesh, speed and order are left out. *)
Record MessageObject := mkMessage {
  shown : string;
  special : bool;
  blueSkyUrl : option string
}.

(** Lines 309-314 *)
Definition wall_of (env : RenderEnv) : Z :=
  if 3 <? wallDraw env then -1 else wallDraw env.

(** ToString of a value inside a template literal *)
Definition template_toString (v : Value) : string :=
  match v with
  | None => "undefined"
  | Some x => js_toString x
  end.

(** Lines 367-375 *)
Definition permalink (wall : Z) (postData : Value) : option string :=
  match postData with
  | None => None
  | Some pd =>
      if truthy postData
         && truthy (opt_get "text" (opt_get "record" (js_get "commit" pd)))
         && (wall =? -1)
      then
        let did := js_get "did" pd in
        let rkey := opt_get "rkey" (js_get "commit" pd) in
        if truthy did && truthy rkey then
          Some ("https://bsky.app/profile/" +:+ template_toString did
                +:+ "/post/" +:+ template_toString rkey)
        else None
      else None
  end.

(** [createMessage(text, postData)] on the list behind
    [messageObjectsRef.current].  [wrapText] calls [text.split], which
    only a string has. *)
Definition createMessage (env : RenderEnv) (text : Value) (postData : Value)
    (objs : list MessageObject) : list MessageObject * Completion :=
  if negb (ready env) then (objs, Normal)
  else
    let wall := wall_of env in
    if negb (wall =? -1) && discardDraw env then (objs, Normal)
    else
      match text with
      | Some (JStr s) =>
          (objs ++ [mkMessage s (wall =? -1) (permalink wall postData)], Normal)
      | _ => (objs, Throws TypeError)
      end.

(** [data.commit?.record?.text] *)
Definition text_of (data : JSON) : JSError + Value :=
  match dot_get "commit" (Some data) with
  | inl e => inl e
  | inr commit => inr (opt_get "text" (opt_get "record" commit))
  end.

(** Lines 969-972: the part of [ws.onmessage] after the time stamp. *)
Definition decode (env : RenderEnv) (p : Payload) (objs : list MessageObject)
    : list MessageObject * Completion :=
  match p with
  | ParseThrows => (objs, Throws SyntaxError)
  | ParseReturns data =>
      match text_of data with
      | inl e => (objs, Throws e)
      | inr text =>
          if truthy text then createMessage env text (Some data) objs
          else (objs, Normal)
      end
  end.


(** A record whose text is the number 5. *)
Definition numeric_post : JSON :=
  JObj [("commit",
         JObj [("record", JObj [("text", JNum (mkNumber true "5"))])])].


(** The refs are set and the draw lands beyond the four walls. *)
Definition special_env : RenderEnv := mkEnv true 4 false.

End Decoder.

(** ** src/BlueSkyVis.tsx: the connection manager inside [useEffect] *)
Module Downstream.
Import Decoder.

Inductive Tick := Heartbeat | ConnectionCheck.

#[global] Instance Tick_eq_dec : EqDecision Tick.
Proof. solve_decision. Defined.

(** A running [setInterval]. *)
Record Interval := mkInterval {
  interval_id : positive;
  interval_body : Tick;
  interval_period : Z
}.

Record State := mkState {
  (** the [let] variables of lines 925-931 *)
  ws : option nat;
  reconnectTimeout : option positive;
  heartbeatInterval : option positive;
  connectionCheckInterval : option positive;
  reconnectAttempts : Z;
  shouldReconnect : bool;
  lastMessageTime : Z;
  (** the browser: every socket made by [new WebSocket], in creation
      order, with its readyState; the timer id counter; the pending
      timeouts with their delays; the running intervals *)
  sockets : list ReadyState;
  nextTimer : positive;
  timeouts : list (positive * Z);
  intervals : list Interval;
  (** every delay handed to [setTimeout] so far, oldest first *)
  scheduled : list Z;
  (** [messageObjectsRef.current] *)
  messageObjects : list MessageObject
}.

Definition maxReconnectAttempts : Z := 50.
Definition baseReconnectDelay : Z := 2000.
Definition connectionTimeout : Z := 10000.

(** *** Field updates *)

Definition set_ws (v : option nat) (s : State) : State :=
  mkState v (reconnectTimeout s) (heartbeatInterval s)
    (connectionCheckInterval s) (reconnectAttempts s) (shouldReconnect s)
    (lastMessageTime s) (sockets s) (nextTimer s) (timeouts s) (intervals s)
    (scheduled s) (messageObjects s).

Definition set_reconnectTimeout (v : option positive) (s : State) : State :=
  mkState (ws s) v (heartbeatInterval s)
    (connectionCheckInterval s) (reconnectAttempts s) (shouldReconnect s)
    (lastMessageTime s) (sockets s) (nextTimer s) (timeouts s) (intervals s)
    (scheduled s) (messageObjects s).

Definition set_heartbeatInterval (v : option positive) (s : State) : State :=
  mkState (ws s) (reconnectTimeout s) v
    (connectionCheckInterval s) (reconnectAttempts s) (shouldReconnect s)
    (lastMessageTime s) (sockets s) (nextTimer s) (timeouts s) (intervals s)
    (scheduled s) (messageObjects s).

Definition set_connectionCheckInterval (v : option positive) (s : State)
    : State :=
  mkState (ws s) (reconnectTimeout s) (heartbeatInterval s)
    v (reconnectAttempts s) (shouldReconnect s)
    (lastMessageTime s) (sockets s) (nextTimer s) (timeouts s) (intervals s)
    (scheduled s) (messageObjects s).

Definition set_reconnectAttempts (v : Z) (s : State) : State :=
  mkState (ws s) (reconnectTimeout s) (heartbeatInterval s)
    (connectionCheckInterval s) v (shouldReconnect s)
    (lastMessageTime s) (sockets s) (nextTimer s) (timeouts s) (intervals s)
    (scheduled s) (messageObjects s).

Definition set_shouldReconnect (v : bool) (s : State) : State :=
  mkState (ws s) (reconnectTimeout s) (heartbeatInterval s)
    (connectionCheckInterval s) (reconnectAttempts s) v
    (lastMessageTime s) (sockets s) (nextTimer s) (timeouts s) (intervals s)
    (scheduled s) (messageObjects s).

Definition set_lastMessageTime (v : Z) (s : State) : State :=
  mkState (ws s) (reconnectTimeout s) (heartbeatInterval s)
    (connectionCheckInterval s) (reconnectAttempts s) (shouldReconnect s)
    v (sockets s) (nextTimer s) (timeouts s) (intervals s)
    (scheduled s) (messageObjects s).

Definition set_sockets (v : list ReadyState) (s : State) : State :=
  mkState (ws s) (reconnectTimeout s) (heartbeatInterval s)
    (connectionCheckInterval s) (reconnectAttempts s) (shouldReconnect s)
    (lastMessageTime s) v (nextTimer s) (timeouts s) (intervals s)
    (scheduled s) (messageObjects s).

Definition set_timeouts (v : list (positive * Z)) (s : State) : State :=
  mkState (ws s) (reconnectTimeout s) (heartbeatInterval s)
    (connectionCheckInterval s) (reconnectAttempts s) (shouldReconnect s)
    (lastMessageTime s) (sockets s) (nextTimer s) v (intervals s)
    (scheduled s) (messageObjects s).

Definition set_intervals (v : list Interval) (s : State) : State :=
  mkState (ws s) (reconnectTimeout s) (heartbeatInterval s)
    (connectionCheckInterval s) (reconnectAttempts s) (shouldReconnect s)
    (lastMessageTime s) (sockets s) (nextTimer s) (timeouts s) v
    (scheduled s) (messageObjects s).

Definition set_messageObjects (v : list MessageObject) (s : State) : State :=
  mkState (ws s) (reconnectTimeout s) (heartbeatInterval s)
    (connectionCheckInterval s) (reconnectAttempts s) (shouldReconnect s)
    (lastMessageTime s) (sockets s) (nextTimer s) (timeouts s) (intervals s)
    (scheduled s) v.

(** *** The browser's timers and sockets *)

(** [setTimeout(cb, delay)]: the id it returns and the state after. *)
Definition setTimeout (delay : Z) (s : State) : positive * State :=
  (nextTimer s,
   mkState (ws s) (reconnectTimeout s) (heartbeatInterval s)
     (connectionCheckInterval s) (reconnectAttempts s) (shouldReconnect s)
     (lastMessageTime s) (sockets s) (Pos.succ (nextTimer s))
     (timeouts s ++ [(nextTimer s, delay)]) (intervals s)
     (scheduled s ++ [delay]) (messageObjects s)).

(** [setInterval(cb, period)] *)
Definition setInterval (body : Tick) (period : Z) (s : State)
    : positive * State :=
  (nextTimer s,
   mkState (ws s) (reconnectTimeout s) (heartbeatInterval s)
     (connectionCheckInterval s) (reconnectAttempts s) (shouldReconnect s)
     (lastMessageTime s) (sockets s) (Pos.succ (nextTimer s))
     (timeouts s) (intervals s ++ [mkInterval (nextTimer s) body period])
     (scheduled s) (messageObjects s)).

Definition clearTimeout (id : positive) (s : State) : State :=
  set_timeouts (filter (λ t, t.1 ≠ id) (timeouts s)) s.

Definition clearInterval (id : positive) (s : State) : State :=
  set_intervals (filter (λ iv, interval_id iv ≠ id) (intervals s)) s.

(** [ws.readyState], for the socket the variable [ws] holds *)
Definition readyState (s : State) : option ReadyState :=
  c ← ws s; sockets s !! c.

(** [socket.close()]: an open or connecting socket starts closing, and
    its 'close' event comes later; otherwise nothing. *)
Definition socket_close (c : nat) (s : State) : State :=
  match sockets s !! c with
  | Some CONNECTING | Some OPEN => set_sockets (<[c := CLOSING]> (sockets s)) s
  | _ => s
  end.

(** [ws.close()] *)
Definition ws_close (s : State) : State :=
  match ws s with
  | Some c => socket_close c s
  | None => s
  end.

(** *** The callbacks *)

(** Lines 998-1011, the timer's callback apart *)
Definition scheduleReconnect (s : State) : State :=
  if negb (shouldReconnect s) || (maxReconnectAttempts <=? reconnectAttempts s)
  then s
  else
    let delay :=
      Z.min (baseReconnectDelay + reconnectAttempts s * 1000) 10000 in
    let '(id, s') := setTimeout delay s in
    set_reconnectTimeout (Some id) s'.

(** Lines 936-996.  [throws] says whether [new WebSocket(websocketUrl)]
    raised; a socket that was made starts in CONNECTING. *)
Definition connectWebSocket (throws : bool) (s : State) : State :=
  if throws then scheduleReconnect s
  else set_ws (Some (length (sockets s)))
         (set_sockets (sockets s ++ [CONNECTING]) s).

(** Lines 1005-1010: the callback of the reconnect timer *)
Definition reconnect_callback (throws : bool) (s : State) : State :=
  if shouldReconnect s then
    connectWebSocket throws
      (set_reconnectAttempts (reconnectAttempts s + 1) s)
  else s.

(** Lines 940-965 *)
Definition onopen (now : Z) (s : State) : State :=
  let s1 := set_lastMessageTime now (set_reconnectAttempts 0 s) in
  let '(h, s2) := setInterval Heartbeat 5000 s1 in
  let s3 := set_heartbeatInterval (Some h) s2 in
  let '(k, s4) := setInterval ConnectionCheck 5000 s3 in
  set_connectionCheckInterval (Some k) s4.

(** Lines 945-956: one run of the heartbeat callback.  [sendThrows]
    says whether [ws.send('ping')] raised; the ping itself is not
    recorded. *)
Definition heartbeat_tick (sendThrows : bool) (s : State) : State :=
  if bool_decide (readyState s = Some OPEN) then
    if sendThrows then
      if shouldReconnect s then scheduleReconnect (ws_close s) else s
    else s
  else s.

(** Lines 959-964: one run of the staleness callback at time [now] *)
Definition connection_check (now : Z) (s : State) : State :=
  let timeSinceLastMessage := now - lastMessageTime s in
  if (connectionTimeout <? timeSinceLastMessage)
     && bool_decide (readyState s = Some OPEN)
  then ws_close s
  else s.

(** Lines 967-973 *)
Definition onmessage (now : Z) (p : Payload) (env : RenderEnv) (s : State)
    : State * Completion :=
  let s1 := set_lastMessageTime now s in
  let '(objs, c) := decode env p (messageObjects s1) in
  (set_messageObjects objs s1, c).

(** Lines 975-988 *)
Definition onclose (s : State) : State :=
  let s1 :=
    match heartbeatInterval s with
    | Some h => set_heartbeatInterval None (clearInterval h s)
    | None => s
    end in
  let s2 :=
    match connectionCheckInterval s1 with
    | Some k => set_connectionCheckInterval None (clearInterval k s1)
    | None => s1
    end in
  if shouldReconnect s2 then scheduleReconnect s2 else s2.

(** Lines 990-992 *)
Definition onerror (s : State) : State := s.

(** Lines 1044-1064, the connection's share of the cleanup *)
Definition cleanup (s : State) : State :=
  let s1 := set_shouldReconnect false s in
  let s2 :=
    match reconnectTimeout s1 with
    | Some t => clearTimeout t s1
    | None => s1
    end in
  let s3 :=
    match heartbeatInterval s2 with
    | Some h => clearInterval h s2
    | None => s2
    end in
  let s4 :=
    match connectionCheckInterval s3 with
    | Some k => clearInterval k s3
    | None => s3
    end in
  ws_close s4.

(** *** The event loop *)

Inductive Event :=
| EvOpen (c : nat) (now : Z)
| EvMessage (c : nat) (now : Z) (p : Payload) (env : RenderEnv)
| EvClose (c : nat)
| EvError (c : nat)
| EvTimeout (id : positive) (throws : bool)
| EvHeartbeat (id : positive) (sendThrows : bool)
| EvCheck (id : positive) (now : Z)
| EvCleanup.

Definition pending (id : positive) (s : State) : bool :=
  bool_decide (id ∈ (timeouts s).*1).

Definition running (id : positive) (body : Tick) (s : State) : bool :=
  existsb
    (λ iv, bool_decide (interval_id iv = id ∧ interval_body iv = body))
    (intervals s).

(** One turn of the event loop.  The browser delivers 'open' only to a
    connecting socket, 'message' only to an open one and 'close' only to
    one not yet closed, setting readyState before the callback runs; a
    timer runs only while it has not been cleared, and a timeout only
    once.  An event the browser cannot deliver leaves the state as it
    is.  An exception leaving a callback is reported by the browser and
    ends that callback only. *)
Definition step (s : State) (e : Event) : State :=
  match e with
  | EvOpen c now =>
      if bool_decide (sockets s !! c = Some CONNECTING)
      then onopen now (set_sockets (<[c := OPEN]> (sockets s)) s)
      else s
  | EvMessage c now p env =>
      if bool_decide (sockets s !! c = Some OPEN)
      then (onmessage now p env s).1
      else s
  | EvClose c =>
      match sockets s !! c with
      | Some CONNECTING | Some OPEN | Some CLOSING =>
          onclose (set_sockets (<[c := CLOSED]> (sockets s)) s)
      | _ => s
      end
  | EvError c => onerror s
  | EvTimeout id throws =>
      if pending id s
      then reconnect_callback throws (clearTimeout id s)
      else s
  | EvHeartbeat id sendThrows =>
      if running id Heartbeat s then heartbeat_tick sendThrows s else s
  | EvCheck id now =>
      if running id ConnectionCheck s then connection_check now s else s
  | EvCleanup => cleanup s
  end.

Definition run (s : State) (tr : list Event) : State := foldl step s tr.

(** The state when [useEffect] reaches line 1014: the variables as
    declared, [Date.now()] being [now], then [connectWebSocket()]. *)
Definition mount (now : Z) (throws : bool) : State :=
  connectWebSocket throws
    (mkState None None None None 0 true now [] 1%positive [] [] [] []).

(** *** Vocabulary of the statements *)

Definition is_open (e : Event) : bool :=
  match e with EvOpen _ _ => true | _ => false end.

Definition is_close_of (c : nat) (e : Event) : bool :=
  match e with EvClose c' => bool_decide (c' = c) | _ => false end.

Definition is_open_of (c : nat) (e : Event) : bool :=
  match e with EvOpen c' _ => bool_decide (c' = c) | _ => false end.

Definition send_fails (e : Event) : bool :=
  match e with EvHeartbeat _ true => true | _ => false end.

Definition count_body (body : Tick) (s : State) : nat :=
  length (filter (λ iv, interval_body iv = body) (intervals s)).

(** The first socket opens at time 0 and the staleness callback runs
    at 10001 with no message in between. *)
Definition stale_run : list Event := [EvOpen 0 0; EvCheck 2 10001].

(** ... then the socket closes and the reconnect timer runs. *)
Definition reconnect_run : list Event :=
  stale_run ++ [EvClose 0; EvTimeout 3 false].

(** A heartbeat send fails on the first socket; both reconnect timers
    run and both new sockets open. *)
Definition failed_ping_run : list Event :=
  [EvOpen 0 0; EvHeartbeat 1 true; EvClose 0;
   EvTimeout 3 false; EvTimeout 4 false; EvOpen 1 9000; EvOpen 2 9000].

(** Events that can reach a first socket that neither opens nor
    closes. *)
Definition hung_run : list Event :=
  [EvError 0; EvHeartbeat 1 false; EvCheck 2 60000; EvTimeout 1 false].

(** The two timers one 'open' callback starts. *)
Definition timer_set (h k : positive) : list Interval :=
  [mkInterval h Heartbeat 5000; mkInterval k ConnectionCheck 5000].

(** The shape of the states met while no heartbeat send fails. *)
Record orderly (s : State) : Prop := mkOrderly {
  (** no timer runs, or the one set the two variables name *)
  one_timer_set :
    intervals s = [] ∨
    ∃ h k, heartbeatInterval s = Some h
           ∧ connectionCheckInterval s = Some k
           ∧ intervals s = timer_set h k;
  (** timers run only for a socket in [ws] that has opened and whose
      'close' has not been handled *)
  timers_need_open :
    intervals s ≠ [] →
    readyState s = Some OPEN ∨ readyState s = Some CLOSING;
  (** every socket but the one in [ws] is closed *)
  others_closed :
    ∀ c r, sockets s !! c = Some r → ws s ≠ Some c → r = CLOSED;
  (** a reconnect is pending only when every socket is closed and no
      timer runs, and then only one *)
  one_pending :
    timeouts s ≠ [] →
    intervals s = []
    ∧ (∀ c r, sockets s !! c = Some r → r = CLOSED)
    ∧ ∃ t, timeouts s = [t]
}.

(** A connection attempt that has neither opened nor closed: the
    socket in [ws] is [c], not open, every other socket is closed, no
    timer runs and no reconnect is pending. *)
Record hanging (c : nat) (s : State) : Prop := mkHanging {
  hang_ws : ws s = Some c;
  hang_state :
    sockets s !! c = Some CONNECTING ∨ sockets s !! c = Some CLOSING;
  hang_others : ∀ c' r, sockets s !! c' = Some r → c' ≠ c → r = CLOSED;
  hang_intervals : intervals s = [];
  hang_timeouts : timeouts s = []
}.

(** The [k]-th run of a callback given to [setInterval] at [start]
    with the given period, timers firing on time. *)
Definition tick_time (start period : Z) (k : nat) : Z :=
  start + period * Z.of_nat k.

(** One period with no traffic: the heartbeat callback, registered
    first, then the staleness callback. *)
Definition quiet_round (h k : positive) (start period : Z) (n : nat)
    : list Event :=
  [EvHeartbeat h false; EvCheck k (tick_time start period n)].

(** The counter is within its cap, a reconnect is pending only below
    the cap, and [reconnectTimeout] names whatever is pending. *)
Definition capped (s : State) : Prop :=
  reconnectAttempts s ≤ 50
  ∧ (timeouts s ≠ [] → reconnectAttempts s < 50)
  ∧ (∀ t, t ∈ (timeouts s).*1 → reconnectTimeout s = Some t).

(** No reconnect wanted, nothing running or pending, no socket that
    could still open. *)
Definition silent (s : State) : Prop :=
  shouldReconnect s = false
  ∧ intervals s = []
  ∧ timeouts s = []
  ∧ ∀ c, sockets s !! c ≠ Some CONNECTING.

Definition is_message (e : Event) : bool :=
  match e with EvMessage _ _ _ _ => true | _ => false end.

(** How many 'message' events a run holds. *)
Definition messages (tr : list Event) : nat :=
  length (filter (λ e, is_message e = true) tr).

(** Attempt [j] fails: its socket closes without having opened, and the
    timer that the 'close' callback set (the [j+1]-th timer made) runs. *)
Definition failed_round (j : nat) : list Event :=
  [EvClose j; EvTimeout (Pos.of_succ_nat j) false].

(** Attempts 0 to [n-1] fail one after the other. *)
Definition failed_rounds (n : nat) : list Event :=
  mbind failed_round (seq 0 n).

(** Rounds 1 to [n]. *)
Definition quiet_rounds (h k : positive) (start period : Z) (n : nat)
    : list Event :=
  mbind (quiet_round h k start period) (seq 1 n).

End Downstream.

(** ** src/BlueSkyVis.tsx: [class TextWrapper] and the loops of
       [updateScene] *)
Module TextWrapper.

(** [text.split(' ')]: one more word than there are spaces, so never
    an empty array. *)
Fixpoint split (text : string) : list string :=
  match text with
  | EmptyString => [EmptyString]
  | String c rest =>
      if Ascii.eqb c Ascii.Space then EmptyString :: split rest
      else
        match split rest with
        | w :: ws => String c w :: ws
        | [] => [String c EmptyString]
        end
  end.

(** [lines.join(' ')] *)
Fixpoint join (lines : list string) : string :=
  match lines with
  | [] => ""
  | [l] => l
  | l :: rest => l +:+ " " +:+ join rest
  end.

Section WithCanvas.
(** [this.context.measureText(s).width] and [<] on such widths. *)
Context {Width : Type} (measureText : string → Width)
        (less : Width → Width → bool).

(** Lines 38-48: the loop over [words[1..]] and the last push. *)
Fixpoint wrap_from (maxWidth : Width) (currentLine : string)
    (lines : list string) (words : list string) : list string :=
  match words with
  | [] => lines ++ [currentLine]
  | word :: rest =>
      if less (measureText (currentLine +:+ " " +:+ word)) maxWidth
      then wrap_from maxWidth (currentLine +:+ " " +:+ word) lines rest
      else wrap_from maxWidth word (lines ++ [currentLine]) rest
  end.

(** Lines 33-50.  [split] never returns the empty list; that case is
    here for the match only. *)
Definition wrapText (text : string) (maxWidth : Width) : list string :=
  match split text with
  | [] => []
  | first :: rest => wrap_from maxWidth first [] rest
  end.

(** Lines 324-327 of [createMessage]: the lines that reach the
    texture. *)
Definition drawn_lines (text : string) (maxWidth : Width) : list string :=
  let lines := wrapText text maxWidth in
  if (10 <? length lines)%nat then take 10 lines else lines.

(** A line as the loop builds it: one word, or a line that passed the
    width test. *)
Definition line_fits (maxWidth : Width) (line : string) : Prop :=
  split line = [line] ∨ less (measureText line) maxWidth = true.
End WithCanvas.

End TextWrapper.

(** ** The backward loops that drop expired objects: [updateLasers] of
       src/Arwing.ts and lines 731-750 of src/BlueSkyVis.tsx *)
Module Sweep.
Section WithElement.
Context {A : Type} (expired : A → bool) (advance : A → A).

(** The body of [for (let i = arr.length - 1; i >= 0; i--)] at index
    [i]: [arr.splice(i, 1); continue] for an expired element, the
    update in place for the others. *)
Definition visit (i : nat) (arr : list A) : list A :=
  match arr !! i with
  | Some x => if expired x then delete i arr else <[i := advance x]> arr
  | None => arr
  end.

(** The iterations [i = n - 1] down to [0]. *)
Fixpoint sweep_from (n : nat) (arr : list A) : list A :=
  match n with
  | O => arr
  | S i => sweep_from i (visit i arr)
  end.

Definition sweep (arr : list A) : list A := sweep_from (length arr) arr.
End WithElement.
End Sweep.

(** ** src/BlueSkyVis.tsx: explosion particles *)
Module Effects.
Section WithScene.
(** A particle's mesh with its velocity, and what a frame does to one
    that stays, given its age and its lifetime in milliseconds (lines
    742-749: move, fade, shrink). *)
Context {Mesh Frame : Type} (faded : Frame → Z → Z → Mesh → Mesh).

(** [interface ExplosionParticle] *)
Record ExplosionParticle := mkParticle {
  mesh : Mesh;
  createdTime : Z;
  lifetime : Z
}.

(** [elapsed > particle.lifetime] *)
Definition particle_expired (currentTime : Z) (p : ExplosionParticle) : bool :=
  lifetime p <? currentTime - createdTime p.

Definition particle_faded (frame : Frame) (currentTime : Z)
    (p : ExplosionParticle) : ExplosionParticle :=
  mkParticle (faded frame (currentTime - createdTime p) (lifetime p) (mesh p))
    (createdTime p) (lifetime p).

(** Lines 731-750 of [updateScene] *)
Definition update_particles (frame : Frame) (currentTime : Z)
    (particles : list ExplosionParticle) : list ExplosionParticle :=
  Sweep.sweep (particle_expired currentTime) (particle_faded frame currentTime)
    particles.

End WithScene.
End Effects.

(** ** src/Arwing.ts: health, lasers and fire rate *)
Module Arwing.
Section WithScene.
(** A mesh with its velocity, and what one frame does to it
    ([mesh.position.addInPlace(velocity.scale(deltaTime))]). *)
Context {Mesh Frame : Type} (moved : Frame → Mesh → Mesh).

(** [interface LaserProjectile], times in milliseconds *)
Record LaserProjectile := mkLaser {
  mesh : Mesh;
  createdTime : Z;
  lifetime : Z
}.

(** The fields of [class Arwing] that health and combat use. *)
Record Ship := mkShip {
  lastFireTime : Z;
  laserProjectiles : list LaserProjectile;
  health : Z;
  collectedUrls : list string
}.

Definition fireRate : Z := 100.
Definition maxHealth : Z := 3.

(** The field initialisers of lines 44-53. *)
Definition fresh : Ship := mkShip 0 [] 3 [].

(** The readings of [Date.now()] one [handleCombat] call can make: in
    the test, in the two [createLaserProjectile] calls, in the
    assignment to [lastFireTime]. *)
Record Clock := mkClock {
  atTest : Z;
  atLeft : Z;
  atRight : Z;
  atStamp : Z
}.

(** The two meshes [fireLasers] makes in a call, placed from where the
    ship is at that moment. *)
Context (leftLaser rightLaser : Clock → Mesh).

(** Lines 209-239 *)
Definition fireLasers (clock : Clock) (s : Ship) : Ship :=
  mkShip (lastFireTime s)
    (laserProjectiles s
       ++ [mkLaser (leftLaser clock) (atLeft clock) 2000;
           mkLaser (rightLaser clock) (atRight clock) 2000])
    (health s) (collectedUrls s).

(** [controls.fire && Date.now() - this.lastFireTime > this.fireRate] *)
Definition fires (fire : bool) (clock : Clock) (s : Ship) : bool :=
  fire && (fireRate <? atTest clock - lastFireTime s).

(** Lines 202-207 *)
Definition handleCombat (fire : bool) (clock : Clock) (s : Ship) : Ship :=
  if fires fire clock s then
    let s' := fireLasers clock s in
    mkShip (atStamp clock) (laserProjectiles s') (health s')
      (collectedUrls s')
  else s.

(** Lines 241-258, [currentTime] being its [Date.now()] *)
Definition laser_expired (currentTime : Z) (laser : LaserProjectile) : bool :=
  lifetime laser <? currentTime - createdTime laser.

Definition laser_moved (frame : Frame) (laser : LaserProjectile)
    : LaserProjectile :=
  mkLaser (moved frame (mesh laser)) (createdTime laser) (lifetime laser).

Definition updateLasers (frame : Frame) (currentTime : Z) (s : Ship) : Ship :=
  mkShip (lastFireTime s)
    (Sweep.sweep (laser_expired currentTime) (laser_moved frame)
       (laserProjectiles s))
    (health s) (collectedUrls s).

(** Lines 356-366; the camera shake is left out.  The result is the
    ship and the returned [this.health <= 0]. *)
Definition takeDamage (blueSkyUrl : option string) (s : Ship) : Ship * bool :=
  let urls :=
    match blueSkyUrl with
    | Some url =>
        if bool_decide (url = "") then collectedUrls s
        else collectedUrls s ++ [url]
    | None => collectedUrls s
    end in
  let s' := mkShip (lastFireTime s) (laserProjectiles s) (health s - 1) urls in
  (s', health s' <=? 0).

Definition getHealth (s : Ship) : Z := health s.

(** [this.collectedUrls[this.collectedUrls.length - 1]] *)
Definition getLastCollectedUrl (s : Ship) : option string :=
  last (collectedUrls s).

Definition resetHealth (s : Ship) : Ship :=
  mkShip (lastFireTime s) (laserProjectiles s) maxHealth [].

(** The part of [update] (lines 116-123) that touches these fields:
    [handleCombat], then at the end [updateLasers]. *)
Definition update (frame : Frame) (fire : bool) (clock : Clock)
    (currentTime : Z) (s : Ship) : Ship :=
  updateLasers frame currentTime (handleCombat fire clock s).

(** The url a collision leaves in [collectedUrls], if any:
    [if (blueSkyUrl)]. *)
Definition kept_url (blueSkyUrl : option string) : option string :=
  match blueSkyUrl with
  | Some url => if bool_decide (url = "") then None else Some url
  | None => None
  end.

(** One collision after the other. *)
Definition hits (urls : list (option string)) (s : Ship) : Ship :=
  foldl (λ acc url, (takeDamage url acc).1) s urls.

(** The frames of a run, each with the fire control and the clock. *)
Definition combat (frames : list (bool * Clock)) (s : Ship) : Ship :=
  foldl (λ acc f, handleCombat f.1 f.2 acc) s frames.

(** Fire held down over three frames, 50 and then 150 ms apart. *)
Definition held_fire : list (bool * Clock) :=
  [(true, mkClock 200 200 201 201);
   (true, mkClock 250 250 250 250);
   (true, mkClock 400 400 400 401)].

(** The clocks of the frames in which the lasers were fired. *)
Fixpoint firings (frames : list (bool * Clock)) (s : Ship) : list Clock :=
  match frames with
  | [] => []
  | (fire, clock) :: rest =>
      (if fires fire clock s then [clock] else [])
      ++ firings rest (handleCombat fire clock s)
  end.
End WithScene.
End Arwing.

(** ** src/ArwingControls.ts: [class ArwingControlHandler] *)
Module Controls.

(** [interface ArwingControls] *)
Record ArwingControls := mkControls {
  forward : bool;
  backward : bool;
  left : bool;
  right : bool;
  up : bool;
  down : bool;
  boost : bool;
  brake : bool;
  fire : bool;
  barrelRollLeft : bool;
  barrelRollRight : bool
}.

Record Handler := mkHandler {
  controls : ArwingControls;
  keys : gmap string bool;
  lastAPress : Z;
  lastDPress : Z;
  aReleased : bool;
  dReleased : bool;
  (** the [setTimeout(..., 100)] callbacks of [handleKeyUp] not yet
      run *)
  pendingResets : nat
}.

Definition doubleClickTime : Z := 300.

(** The field initialisers of lines 4-23. *)
Definition initial : Handler :=
  mkHandler
    (mkControls false false false false false false false false false
       false false)
    ∅ 0 0 true true 0.

Definition set_left (b : bool) (c : ArwingControls) : ArwingControls :=
  mkControls (forward c) (backward c) b (right c) (up c) (down c) (boost c)
    (brake c) (fire c) (barrelRollLeft c) (barrelRollRight c).

Definition set_right (b : bool) (c : ArwingControls) : ArwingControls :=
  mkControls (forward c) (backward c) (left c) b (up c) (down c) (boost c)
    (brake c) (fire c) (barrelRollLeft c) (barrelRollRight c).

Definition set_up (b : bool) (c : ArwingControls) : ArwingControls :=
  mkControls (forward c) (backward c) (left c) (right c) b (down c) (boost c)
    (brake c) (fire c) (barrelRollLeft c) (barrelRollRight c).

Definition set_down (b : bool) (c : ArwingControls) : ArwingControls :=
  mkControls (forward c) (backward c) (left c) (right c) (up c) b (boost c)
    (brake c) (fire c) (barrelRollLeft c) (barrelRollRight c).

Definition set_boost (b : bool) (c : ArwingControls) : ArwingControls :=
  mkControls (forward c) (backward c) (left c) (right c) (up c) (down c) b
    (brake c) (fire c) (barrelRollLeft c) (barrelRollRight c).

Definition set_brake (b : bool) (c : ArwingControls) : ArwingControls :=
  mkControls (forward c) (backward c) (left c) (right c) (up c) (down c)
    (boost c) b (fire c) (barrelRollLeft c) (barrelRollRight c).

Definition set_fire (b : bool) (c : ArwingControls) : ArwingControls :=
  mkControls (forward c) (backward c) (left c) (right c) (up c) (down c)
    (boost c) (brake c) b (barrelRollLeft c) (barrelRollRight c).

Definition set_barrelRollLeft (b : bool) (c : ArwingControls)
    : ArwingControls :=
  mkControls (forward c) (backward c) (left c) (right c) (up c) (down c)
    (boost c) (brake c) (fire c) b (barrelRollRight c).

Definition set_barrelRollRight (b : bool) (c : ArwingControls)
    : ArwingControls :=
  mkControls (forward c) (backward c) (left c) (right c) (up c) (down c)
    (boost c) (brake c) (fire c) (barrelRollLeft c) b.

Definition with_controls (c : ArwingControls) (h : Handler) : Handler :=
  mkHandler c (keys h) (lastAPress h) (lastDPress h) (aReleased h)
    (dReleased h) (pendingResets h).

(** Lines 141-151, [now] being its [Date.now()] *)
Definition handleDoubleA (now : Z) (h : Handler) : Handler :=
  if (now - lastAPress h <? doubleClickTime) && (0 <? lastAPress h) then
    mkHandler (set_barrelRollLeft true (controls h)) (keys h) 0
      (lastDPress h) (aReleased h) (dReleased h) (pendingResets h)
  else
    mkHandler (controls h) (keys h) now (lastDPress h) (aReleased h)
      (dReleased h) (pendingResets h).

(** Lines 153-163 *)
Definition handleDoubleD (now : Z) (h : Handler) : Handler :=
  if (now - lastDPress h <? doubleClickTime) && (0 <? lastDPress h) then
    mkHandler (set_barrelRollRight true (controls h)) (keys h)
      (lastAPress h) 0 (aReleased h) (dReleased h) (pendingResets h)
  else
    mkHandler (controls h) (keys h) (lastAPress h) now (aReleased h)
      (dReleased h) (pendingResets h).

(** Lines 54-90.  [key] is [event.key.toLowerCase()]. *)
Definition handleKeyDown (key : string) (now : Z) (h : Handler) : Handler :=
  let h := mkHandler (controls h) (<[key := true]> (keys h)) (lastAPress h)
             (lastDPress h) (aReleased h) (dReleased h) (pendingResets h) in
  if bool_decide (key = "w") then with_controls (set_up true (controls h)) h
  else if bool_decide (key = "s") then
    with_controls (set_down true (controls h)) h
  else if bool_decide (key = "a") then
    let h := with_controls (set_left true (controls h)) h in
    if aReleased h then
      let h := handleDoubleA now h in
      mkHandler (controls h) (keys h) (lastAPress h) (lastDPress h) false
        (dReleased h) (pendingResets h)
    else h
  else if bool_decide (key = "d") then
    let h := with_controls (set_right true (controls h)) h in
    if dReleased h then
      let h := handleDoubleD now h in
      mkHandler (controls h) (keys h) (lastAPress h) (lastDPress h)
        (aReleased h) false (pendingResets h)
    else h
  else if bool_decide (key = "shift") then
    with_controls (set_boost true (controls h)) h
  else if bool_decide (key = "control") then
    with_controls (set_brake true (controls h)) h
  else if bool_decide (key = " ") then
    with_controls (set_fire true (controls h)) h
  else h.

(** Lines 92-127 *)
Definition handleKeyUp (key : string) (h : Handler) : Handler :=
  let h := mkHandler (controls h) (<[key := false]> (keys h)) (lastAPress h)
             (lastDPress h) (aReleased h) (dReleased h) (pendingResets h) in
  let h :=
    if bool_decide (key = "w") then with_controls (set_up false (controls h)) h
    else if bool_decide (key = "s") then
      with_controls (set_down false (controls h)) h
    else if bool_decide (key = "a") then
      mkHandler (set_left false (controls h)) (keys h) (lastAPress h)
        (lastDPress h) true (dReleased h) (pendingResets h)
    else if bool_decide (key = "d") then
      mkHandler (set_right false (controls h)) (keys h) (lastAPress h)
        (lastDPress h) (aReleased h) true (pendingResets h)
    else if bool_decide (key = "shift") then
      with_controls (set_boost false (controls h)) h
    else if bool_decide (key = "control") then
      with_controls (set_brake false (controls h)) h
    else if bool_decide (key = " ") then
      with_controls (set_fire false (controls h)) h
    else h in
  mkHandler (controls h) (keys h) (lastAPress h) (lastDPress h)
    (aReleased h) (dReleased h) (S (pendingResets h)).

(** Lines 123-126: the callback of the timer *)
Definition reset_rolls (h : Handler) : Handler :=
  with_controls
    (set_barrelRollRight false (set_barrelRollLeft false (controls h))) h.

(** Lines 129-139 *)
Definition handleMouseDown (button : Z) (h : Handler) : Handler :=
  if button =? 0 then with_controls (set_fire true (controls h)) h else h.

Definition handleMouseUp (button : Z) (h : Handler) : Handler :=
  if button =? 0 then with_controls (set_fire false (controls h)) h else h.

(** [getControls()]: a copy of the record *)
Definition getControls (h : Handler) : ArwingControls := controls h.

Inductive Input :=
| KeyDown (key : string) (now : Z)
| KeyUp (key : string)
| MouseDown (button : Z)
| MouseUp (button : Z)
| ResetTimer.

(** One listener call; a reset timer runs only if one is pending. *)
Definition step (h : Handler) (i : Input) : Handler :=
  match i with
  | KeyDown key now => handleKeyDown key now h
  | KeyUp key => handleKeyUp key h
  | MouseDown button => handleMouseDown button h
  | MouseUp button => handleMouseUp button h
  | ResetTimer =>
      match pendingResets h with
      | O => h
      | S n =>
          let h := reset_rolls h in
          mkHandler (controls h) (keys h) (lastAPress h) (lastDPress h)
            (aReleased h) (dReleased h) n
      end
  end.

Definition run (h : Handler) (inputs : list Input) : Handler :=
  foldl step h inputs.

(** A double tap on A, the reset timer of the release having run in
    between. *)
Definition rolled : Handler :=
  run initial
    [KeyDown "a" 1000; KeyUp "a"; ResetTimer; KeyDown "a" 1100].

Definition is_key_up (i : Input) : bool :=
  match i with KeyUp _ => true | _ => false end.

Definition is_reset (i : Input) : bool :=
  match i with ResetTimer => true | _ => false end.

Definition releases_a (i : Input) : bool :=
  match i with KeyUp key => bool_decide (key = "a") | _ => false end.

Definition touches_a (i : Input) : bool :=
  match i with
  | KeyDown key _ | KeyUp key => bool_decide (key = "a")
  | _ => false
  end.

End Controls.


(** * Facts about the relay *)
Section RelayFacts.
Import Relay.
Context {Buffer : Type} (toString : Buffer → string).

Local Abbreviation step := (Relay.step toString).
Local Abbreviation run := (Relay.run toString).
Local Abbreviation Event := (@Relay.Event Buffer).

Lemma Set_add_NoDup x s : NoDup s → NoDup (Set_add x s).
Proof.
  intros Hs. unfold Set_add. case_decide; [done|].
  apply NoDup_app. split_and!; [done| |apply NoDup_singleton].
  intros y Hy ->%list_elem_of_singleton. done.
Qed.

Lemma Set_delete_NoDup x s : NoDup s → NoDup (Set_delete x s).
Proof. apply NoDup_filter. Qed.

Lemma Set_delete_not_elem x s : x ∉ Set_delete x s.
Proof. unfold Set_delete. rewrite list_elem_of_filter. by intros [? _]. Qed.



Lemma run_snoc (s : Server) (tr : list Event) e :
  run s (tr ++ [e]) = step (run s tr) e.
Proof. unfold Relay.run. by rewrite foldl_app. Qed.

Lemma run_cons (s : Server) (tr : list Event) e :
  run s (e :: tr) = run (step s e) tr.
Proof. done. Qed.

Lemma step_NoDup (s : Server) (e : Event) :
  NoDup (connectedClients s) → NoDup (connectedClients (step s e)).
Proof.
  intros Hs. destruct e; simpl; auto using Set_add_NoDup, Set_delete_NoDup.
  destruct (timeouts s); done.
Qed.

Lemma run_NoDup (tr : list Event) (s : Server) :
  NoDup (connectedClients s) → NoDup (connectedClients (run s tr)).
Proof.
  revert s. induction tr as [|e tr IH]; intros s Hs; [done|].
  rewrite run_cons. by apply IH, step_NoDup.
Qed.

Lemma boot_NoDup : NoDup (connectedClients (@boot)).
Proof. apply NoDup_nil_2. Qed.









End RelayFacts.


(** The [/health] callback, run on a state, answers with the three
    fields read from memory. *)
Lemma health_fields (s : Relay.Server) :
  Relay.status (Relay.health s) = "ok"
  ∧ Relay.clients (Relay.health s) = length (Relay.connectedClients s)
  ∧ (Relay.jetstream (Relay.health s) = true ↔
     ∃ c, Relay.jetstreamConnection s = Some c
          ∧ Relay.upstream s !! c = Some OPEN).
Proof.
  split_and!; [done|done|].
  unfold Relay.health, Relay.jetstream_open. simpl.
  destruct (Relay.jetstreamConnection s) as [c|].
  - rewrite bool_decide_eq_true. split; [eauto|]. by intros (? & [= <-] & ?).
  - split; [done|]. by intros (? & ? & ?).
Qed.

(** C9.  A GET for [/health] never reaches the health callback: the
    catch-all route registered at line 17 answers first (or the static
    layer, if the build holds such a file), so the response is never
    the JSON body. *)
Theorem health_route_shadowed (exists_in : string → string → bool)
    (s : Relay.Server) :
  Relay.get exists_in "/health" s
  = (if exists_in "dist" "/health"
     then Relay.StaticFile "dist" "/health" else Relay.IndexHtml)
  ∧ ∀ body, Relay.get exists_in "/health" s ≠ Relay.Json body.
Proof.
  unfold Relay.get. simpl.
  destruct (exists_in "dist" "/health"); split; done.
Qed.

(** * Facts about the decoder *)
Section DecoderFacts.
Import Decoder.

Lemma text_of_not_null (data : JSON) :
  data ≠ JNull →
  text_of data
  = inr (opt_get "text" (opt_get "record" (js_get "commit" data))).
Proof. by destruct data. Qed.

Lemma decode_keeps_on_throw env p objs objs' e :
  decode env p objs = (objs', Throws e) → objs' = objs.
Proof.
  unfold decode, createMessage. intros H.
  repeat case_match; simplify_eq; done.
Qed.




End DecoderFacts.

(** * Facts about the downstream connection manager *)
Section DownstreamFacts.
Import Decoder Downstream.

Local Abbreviation run := Downstream.run.
Local Abbreviation step := Downstream.step.
Local Abbreviation Event := Downstream.Event.

(** Splits on the test at the head of a callback. *)
Ltac branch :=
  match goal with
  | |- context [if ?b then _ else _] => destruct b eqn:?
  | |- context [match ?x with _ => _ end] => destruct x eqn:?
  end.

Lemma run_app (s : State) (tr1 tr2 : list Event) :
  run s (tr1 ++ tr2) = run (run s tr1) tr2.
Proof. apply foldl_app. Qed.







(** *** What each callback leaves alone *)


Lemma scheduleReconnect_idle (s : State) :
  shouldReconnect s = false ∨ 50 ≤ reconnectAttempts s →
  scheduleReconnect s = s.
Proof.
  intros H. unfold scheduleReconnect, maxReconnectAttempts.
  destruct (shouldReconnect s); simpl; [|done].
  destruct (Z.leb_spec 50 (reconnectAttempts s)); [done|].
  destruct H; [done|lia].
Qed.

Lemma scheduleReconnect_attempts (s : State) :
  reconnectAttempts (scheduleReconnect s) = reconnectAttempts s
  ∧ shouldReconnect (scheduleReconnect s) = shouldReconnect s.
Proof. unfold scheduleReconnect. by branch. Qed.

Lemma scheduleReconnect_wiring (s : State) :
  ws (scheduleReconnect s) = ws s
  ∧ sockets (scheduleReconnect s) = sockets s
  ∧ heartbeatInterval (scheduleReconnect s) = heartbeatInterval s
  ∧ connectionCheckInterval (scheduleReconnect s) = connectionCheckInterval s
  ∧ intervals (scheduleReconnect s) = intervals s
  ∧ (timeouts (scheduleReconnect s) = timeouts s
     ∨ ∃ d, timeouts (scheduleReconnect s) = timeouts s ++ [(nextTimer s, d)]).
Proof.
  unfold scheduleReconnect.
  match goal with |- context [if ?b then _ else _] => destruct b end;
    simpl; split_and!; try done; [by left | right; eauto].
Qed.

Lemma ws_close_wiring (s : State) :
  ws (ws_close s) = ws s
  ∧ heartbeatInterval (ws_close s) = heartbeatInterval s
  ∧ connectionCheckInterval (ws_close s) = connectionCheckInterval s
  ∧ intervals (ws_close s) = intervals s
  ∧ timeouts (ws_close s) = timeouts s
  ∧ (sockets (ws_close s) = sockets s
     ∨ ∃ c r, ws s = Some c ∧ sockets s !! c = Some r ∧ r ≠ CLOSED
              ∧ sockets (ws_close s) = <[c := CLOSING]> (sockets s)).
Proof.
  unfold ws_close, socket_close.
  destruct (ws s) as [c|] eqn:Hws; [|by split_and!; try left].
  destruct (sockets s !! c) as [[]|] eqn:Hc; simpl;
    split_and!; try done; try (by left);
    right; exists c; eexists; split_and!; done.
Qed.

Lemma ws_close_rest (s : State) :
  shouldReconnect (ws_close s) = shouldReconnect s
  ∧ reconnectAttempts (ws_close s) = reconnectAttempts s
  ∧ scheduled (ws_close s) = scheduled s
  ∧ length (sockets (ws_close s)) = length (sockets s).
Proof.
  unfold ws_close, socket_close.
  repeat branch; simpl; rewrite ?length_insert; done.
Qed.

Lemma onclose_wiring (s : State) :
  ws (onclose s) = ws s
  ∧ sockets (onclose s) = sockets s
  ∧ heartbeatInterval (onclose s) = None
  ∧ connectionCheckInterval (onclose s) = None
  ∧ intervals (onclose s)
    = match connectionCheckInterval s with
      | Some k => filter (λ iv, interval_id iv ≠ k)
      | None => id
      end
        (match heartbeatInterval s with
         | Some h => filter (λ iv, interval_id iv ≠ h) (intervals s)
         | None => intervals s
         end)
  ∧ (timeouts (onclose s) = timeouts s
     ∨ ∃ d, timeouts (onclose s) = timeouts s ++ [(nextTimer s, d)]).
Proof.
  unfold onclose.
  destruct (heartbeatInterval s) as [h|] eqn:Hh; simpl;
  destruct (connectionCheckInterval s) as [k|] eqn:Hk; simpl; rewrite ?Hk; simpl;
  match goal with |- context [if ?b then _ else _] => destruct b end;
  try (split_and!; try done; by left);
  unfold scheduleReconnect; simpl;
  match goal with |- context [if ?b then _ else _] => destruct b end;
  simpl; split_and!; try done; try (by left); right; eauto.
Qed.

Lemma onclose_timers (s : State) :
  timeouts (onclose s) = timeouts (scheduleReconnect s)
  ∧ scheduled (onclose s) = scheduled (scheduleReconnect s)
  ∧ reconnectAttempts (onclose s) = reconnectAttempts s
  ∧ shouldReconnect (onclose s) = shouldReconnect s.
Proof.
  unfold onclose.
  destruct (heartbeatInterval s) as [h|] eqn:Hh; simpl;
    destruct (connectionCheckInterval s) as [k|] eqn:Hk; simpl;
    rewrite ?Hk; simpl;
    unfold scheduleReconnect; simpl;
    destruct (shouldReconnect s) eqn:Hsr; simpl; try done;
    destruct (maxReconnectAttempts <=? reconnectAttempts s); by split_and!.
Qed.


(** *** Reconnecting *)





(** Fifty attempts in a row fail after the first connection: the
    delays set are 2000, 3000, ..., 10000 and then 10000 each, fifty in
    all, and the close of the fiftieth attempt sets no timer. *)
Example fifty_failed_attempts :
  reconnectAttempts (run (mount 0 false) (failed_rounds 50)) = 50
  ∧ length (sockets (run (mount 0 false) (failed_rounds 50))) = 51%nat
  ∧ scheduled (run (mount 0 false) (failed_rounds 50))
    = (λ k : nat, Z.min (2000 + Z.of_nat k * 1000) 10000) <$> seq 0 50
  ∧ scheduled (run (mount 0 false) (failed_rounds 50 ++ [EvClose 50]))
    = scheduled (run (mount 0 false) (failed_rounds 50))
  ∧ timeouts (run (mount 0 false) (failed_rounds 50 ++ [EvClose 50])) = [].
Proof. by vm_compute. Qed.

(** *** Teardown *)

Lemma cleanup_fields (s : State) :
  shouldReconnect (cleanup s) = false
  ∧ scheduled (cleanup s) = scheduled s
  ∧ length (sockets (cleanup s)) = length (sockets s)
  ∧ ws (cleanup s) = ws s
  ∧ (∀ t, t ∈ timeouts (cleanup s) → t ∈ timeouts s)
  ∧ (∀ t d, reconnectTimeout s = Some t → (t, d) ∉ timeouts (cleanup s)).
Proof.
  unfold cleanup.
  match goal with |- context [ws_close ?x] =>
    destruct (ws_close_rest x) as (-> & _ & -> & ->);
    destruct (ws_close_wiring x) as (-> & _ & _ & _ & -> & _) end.
  simpl. destruct (reconnectTimeout s) as [t0|]; simpl;
    destruct (heartbeatInterval s); simpl;
    destruct (connectionCheckInterval s); simpl;
    split_and!; try done;
    try (intros t [_ ?]%list_elem_of_filter; done);
    intros t d [= <-] [? _]%list_elem_of_filter; done.
Qed.

Lemma step_torn_down (s : State) (e : Event) :
  shouldReconnect s = false →
  shouldReconnect (step s e) = false
  ∧ scheduled (step s e) = scheduled s
  ∧ length (sockets (step s e)) = length (sockets s)
  ∧ ws (step s e) = ws s
  ∧ (∀ t, t ∈ timeouts (step s e) → t ∈ timeouts s).
Proof.
  intros Hs.
  destruct e as [c now|c now p env|c|c|id throws|id b|id now|]; simpl.
  - branch; [|done]. unfold onopen. simpl. by rewrite length_insert.
  - branch; [|done]. unfold onmessage. by destruct (decode _ _ _).
  - assert (Hc : ∀ r, let s' := set_sockets (<[c := r]> (sockets s)) s in
              shouldReconnect (onclose s') = false
              ∧ scheduled (onclose s') = scheduled s
              ∧ length (sockets (onclose s')) = length (sockets s)
              ∧ ws (onclose s') = ws s
              ∧ (∀ t, t ∈ timeouts (onclose s') → t ∈ timeouts s)).
    { intros r s'.
      destruct (onclose_timers s') as (-> & -> & _ & ->).
      destruct (onclose_wiring s') as (-> & -> & _).
      rewrite scheduleReconnect_idle by (by left).
      simpl. by rewrite length_insert. }
    repeat branch; try done; apply Hc.
  - done.
  - branch; [|done]. unfold reconnect_callback. simpl. rewrite Hs.
    simpl. split_and!; try done. by intros t [_ ?]%list_elem_of_filter.
  - branch; [|done]. unfold heartbeat_tick. rewrite Hs. by repeat branch.
  - branch; [|done]. unfold connection_check. branch; [|done].
    destruct (ws_close_rest s) as (-> & _ & -> & ->).
    by destruct (ws_close_wiring s) as (-> & _ & _ & _ & -> & _).
  - destruct (cleanup_fields s) as (? & ? & ? & ? & ? & _). done.
Qed.

Lemma run_torn_down (tr : list Event) (s : State) :
  shouldReconnect s = false →
  shouldReconnect (run s tr) = false
  ∧ scheduled (run s tr) = scheduled s
  ∧ length (sockets (run s tr)) = length (sockets s)
  ∧ ws (run s tr) = ws s
  ∧ (∀ t, t ∈ timeouts (run s tr) → t ∈ timeouts s).
Proof.
  revert s. induction tr as [|e tr IH]; intros s Hs; [done|].
  destruct (step_torn_down s e Hs) as (H1 & H2 & H3 & H4 & H5).
  destruct (IH _ H1) as (I1 & I2 & I3 & I4 & I5).
  simpl. split_and!; [done|congruence|congruence|congruence|auto].
Qed.

(** C7.  After the cleanup of the effect ([shouldReconnect = false],
    the timers cleared, [ws.close(1000, ...)]), whatever events follow,
    the 'close' of the old socket among them: [shouldReconnect] stays
    false, no delay is handed to [setTimeout] again, no socket is made,
    the pending timers only dwindle, and the timer [reconnectTimeout]
    named is gone. *)
Theorem no_reconnect_after_teardown (s : State) (tr : list Event) :
  let s' := run (cleanup s) tr in
  shouldReconnect s' = false
  ∧ scheduled s' = scheduled s
  ∧ length (sockets s') = length (sockets s)
  ∧ ws s' = ws s
  ∧ (∀ t, t ∈ timeouts s' → t ∈ timeouts s)
  ∧ (∀ t d, reconnectTimeout s = Some t → (t, d) ∉ timeouts s').
Proof.
  intros s'.
  destruct (cleanup_fields s) as (C1 & C2 & C3 & C4 & C5 & C6).
  destruct (run_torn_down tr (cleanup s) C1) as (R1 & R2 & R3 & R4 & R5).
  subst s'. split_and!; [done|congruence|congruence|congruence|auto|].
  intros t d Ht Hin. by eapply C6, R5.
Qed.

(** *** Staleness *)

Lemma running_elem (id : positive) (body : Tick) (p : Z) (s : State) :
  mkInterval id body p ∈ intervals s → running id body s = true.
Proof.
  intros Hin. unfold running. apply existsb_exists.
  exists (mkInterval id body p). split; [by apply list_elem_of_In|].
  by apply bool_decide_eq_true_2.
Qed.

Lemma heartbeat_sent (s : State) : heartbeat_tick false s = s.
Proof. unfold heartbeat_tick. by case_bool_decide. Qed.

Lemma connection_check_fresh (now : Z) (s : State) :
  now - lastMessageTime s ≤ 10000 → connection_check now s = s.
Proof.
  intros H. unfold connection_check, connectionTimeout.
  destruct (Z.ltb_spec 10000 (now - lastMessageTime s)); [lia|done].
Qed.

Lemma connection_check_stale (now : Z) (s : State) (c : nat) :
  ws s = Some c → sockets s !! c = Some OPEN →
  10000 < now - lastMessageTime s →
  sockets (connection_check now s) !! c = Some CLOSING.
Proof.
  intros Hws Hc H. unfold connection_check, connectionTimeout, readyState.
  destruct (Z.ltb_spec 10000 (now - lastMessageTime s)); [|lia].
  rewrite Hws. simpl. rewrite bool_decide_eq_true_2 by done.
  unfold ws_close, socket_close. rewrite Hws, Hc. simpl.
  apply list_lookup_insert_eq. by eapply lookup_lt_Some.
Qed.

Lemma quiet_rounds_S (h k : positive) (start period : Z) (n : nat) :
  quiet_rounds h k start period (S n)
  = quiet_rounds h k start period n ++ quiet_round h k start period (S n).
Proof.
  unfold quiet_rounds. by rewrite seq_S, bind_app.
Qed.

Lemma quiet_rounds_fresh (h k : positive) (start period : Z) (s : State)
    (n : nat) :
  running h Heartbeat s = true → running k ConnectionCheck s = true →
  (∀ j, (1 ≤ j ≤ n)%nat →
        tick_time start period j - lastMessageTime s ≤ 10000) →
  run s (quiet_rounds h k start period n) = s.
Proof.
  intros Hh Hk. induction n as [|n IH]; intros Hj; [done|].
  rewrite quiet_rounds_S, run_app, IH by (intros j ?; apply Hj; lia).
  simpl. rewrite Hh, heartbeat_sent, Hk.
  apply connection_check_fresh, Hj. lia.
Qed.

(** C6.  Let the heartbeat and staleness timers of lines 945-964 run
    with their period of 5000 ms from [start] on, firing on time, while
    the socket in [ws] reports OPEN and no message arrives after
    [lastMessageTime].  Then some tick [n] falls more than 10000 ms and
    at most 15000 ms after [lastMessageTime], that is within 5000 ms of
    the threshold being passed; nothing changes before it, and at that
    tick the staleness callback calls [ws.close()]: the socket is
    CLOSING. *)
Theorem stale_connection_closed_within_a_tick (s : State) (c : nat)
    (h k : positive) (start : Z) :
  ws s = Some c → sockets s !! c = Some OPEN →
  mkInterval h Heartbeat 5000 ∈ intervals s →
  mkInterval k ConnectionCheck 5000 ∈ intervals s →
  start ≤ lastMessageTime s →
  ∃ n : nat,
    lastMessageTime s + 10000 < tick_time start 5000 n
    ∧ tick_time start 5000 n ≤ lastMessageTime s + 10000 + 5000
    ∧ (∀ m, (m < n)%nat → run s (quiet_rounds h k start 5000 m) = s)
    ∧ sockets (run s (quiet_rounds h k start 5000 n)) !! c = Some CLOSING.
Proof.
  intros Hws Hc Hh%running_elem Hk%running_elem Hstart.
  set (L := lastMessageTime s) in *.
  set (q := (L + 10000 - start) / 5000).
  assert (Hq : 5000 * q ≤ L + 10000 - start < 5000 * (q + 1)).
  { pose proof (Z.mul_div_le (L + 10000 - start) 5000 ltac:(lia)).
    pose proof (Z.mul_succ_div_gt (L + 10000 - start) 5000 ltac:(lia)).
    subst q. lia. }
  assert (Hq0 : 0 ≤ q) by lia.
  exists (S (Z.to_nat q)).
  assert (Hfresh : ∀ m, (m < S (Z.to_nat q))%nat →
            run s (quiet_rounds h k start 5000 m) = s).
  { intros m Hm. apply quiet_rounds_fresh; [done..|].
    intros j Hj. unfold tick_time. fold L. lia. }
  unfold tick_time. split_and!; [lia|lia|done|].
  rewrite quiet_rounds_S, run_app, Hfresh by lia.
  simpl. rewrite Hh, heartbeat_sent, Hk.
  apply connection_check_stale; [done..|]. unfold tick_time. fold L. lia.
Qed.

Lemma stale_connection_closed_within_a_tick_witness :
  (ws (step (mount 0 false) (EvOpen 0 100)) = Some 0%nat
   ∧ sockets (step (mount 0 false) (EvOpen 0 100)) !! 0%nat = Some OPEN)
  ∧ (mkInterval 1 Heartbeat 5000
       ∈ intervals (step (mount 0 false) (EvOpen 0 100))
     ∧ mkInterval 2 ConnectionCheck 5000
         ∈ intervals (step (mount 0 false) (EvOpen 0 100)))
  ∧ 100 ≤ lastMessageTime (step (mount 0 false) (EvOpen 0 100))
  ∧ ∃ n : nat,
      lastMessageTime (step (mount 0 false) (EvOpen 0 100)) + 10000
        < tick_time 100 5000 n
      ∧ sockets (run (step (mount 0 false) (EvOpen 0 100))
                   (quiet_rounds 1 2 100 5000 n)) !! 0%nat
        = Some CLOSING.
Proof.
  set (s := step (mount 0 false) (EvOpen 0 100)).
  assert (H1 : mkInterval 1 Heartbeat 5000 ∈ intervals s)
    by (vm_compute; apply list_elem_of_here).
  assert (H2 : mkInterval 2 ConnectionCheck 5000 ∈ intervals s)
    by (vm_compute; apply list_elem_of_further, list_elem_of_here).
  assert (H3 : 100 ≤ lastMessageTime s) by (vm_compute; discriminate).
  split; [done|]. split; [done|]. split; [exact H3|].
  destruct (stale_connection_closed_within_a_tick s 0 1 2 100
              eq_refl eq_refl H1 H2 H3) as (n & Hlo & _ & _ & Hclosing).
  exists n. split; [exact Hlo | exact Hclosing].
Defined.

(** *** One timer set at a time *)

Lemma orderly_live (s : State) (c : nat) (r : ReadyState) :
  orderly s → sockets s !! c = Some r → r ≠ CLOSED →
  ws s = Some c ∧ timeouts s = [].
Proof.
  intros [_ _ Ho Hp] Hc Hr. split.
  - destruct (decide (ws s = Some c)) as [|Hne]; [done|].
    by destruct (Hr (Ho c r Hc Hne)).
  - destruct (timeouts s) as [|t ts] eqn:Ht; [done|].
    destruct Hp as (_ & Hall & _); [done|].
    by destruct (Hr (Hall c r Hc)).
Qed.

Lemma orderly_not_yet_open (s : State) :
  orderly s → readyState s = Some CONNECTING → intervals s = [].
Proof.
  intros [_ Ha _ _] Hr. destruct (intervals s) as [|iv ivs] eqn:Hi; [done|].
  destruct Ha as [H|H]; [done|congruence|congruence].
Qed.

Lemma timer_set_cleared (h k : positive) :
  filter (λ iv, interval_id iv ≠ k)
    (filter (λ iv, interval_id iv ≠ h) (timer_set h k)) = [].
Proof.
  unfold timer_set. rewrite !filter_cons, filter_nil. simpl.
  rewrite decide_False by (by intros ?).
  destruct (decide (k ≠ h)).
  - rewrite filter_cons. simpl. by rewrite decide_False by (by intros ?).
  - done.
Qed.

(** Both variables name the running set, so clearing by them empties it. *)
Lemma orderly_clear_timers (s : State) (l : list Interval) :
  orderly s →
  l = match connectionCheckInterval s with
      | Some k => filter (λ iv, interval_id iv ≠ k)
      | None => id
      end
        (match heartbeatInterval s with
         | Some h => filter (λ iv, interval_id iv ≠ h) (intervals s)
         | None => intervals s
         end) →
  l = [].
Proof.
  intros [[Hi|(h & k & Hh & Hk & Hi)] _ _ _] ->.
  - rewrite Hi. destruct (heartbeatInterval s), (connectionCheckInterval s); done.
  - rewrite Hh, Hk, Hi. apply timer_set_cleared.
Qed.

Lemma orderly_ext (s s' : State) :
  ws s' = ws s → sockets s' = sockets s →
  heartbeatInterval s' = heartbeatInterval s →
  connectionCheckInterval s' = connectionCheckInterval s →
  timeouts s' = timeouts s → intervals s' = intervals s →
  orderly s → orderly s'.
Proof.
  intros H1 H2 H3 H4 H5 H6 [O1 O2 O3 O4].
  constructor; unfold readyState in *;
    rewrite ?H1, ?H2, ?H3, ?H4, ?H5, ?H6; done.
Qed.

(** Scheduling when every socket is closed, no timer runs and nothing
    is pending. *)
Lemma orderly_schedule (s : State) :
  orderly s → intervals s = [] → timeouts s = [] →
  (∀ c r, sockets s !! c = Some r → r = CLOSED) →
  orderly (scheduleReconnect s).
Proof.
  intros [O1 O2 O3 O4] Hi Ht Hall.
  destruct (scheduleReconnect_wiring s) as (E1 & E2 & E3 & E4 & E5 & E6).
  constructor; unfold readyState; rewrite ?E1, ?E2, ?E3, ?E4, ?E5; try done.
  intros Hne. split_and!; [done|done|].
  destruct E6 as [E6|[d E6]]; rewrite E6, Ht in *; [done|by eauto].
Qed.

Lemma readyState_after_insert (s s' : State) (c : nat) (r r' : ReadyState) :
  ws s = Some c → ws s' = Some c → sockets s !! c = Some r →
  sockets s' = <[c := r']> (sockets s) →
  readyState s' = Some r'.
Proof.
  intros H1 H2 H3 H4. unfold readyState. rewrite H2, H4. simpl.
  apply list_lookup_insert_eq. by eapply lookup_lt_Some.
Qed.

Lemma orderly_ws_close (s : State) : orderly s → orderly (ws_close s).
Proof.
  intros Ho.
  destruct (ws_close_wiring s) as (E1 & E2 & E3 & E4 & E5 & E6).
  destruct E6 as [E6|(c & r & Hws & Hc & Hr & E6)];
    [by apply (orderly_ext s)|].
  destruct (orderly_live s c r Ho Hc Hr) as [_ Ht].
  destruct Ho as [O1 O2 O3 O4].
  constructor; rewrite ?E1, ?E2, ?E3, ?E4, ?E5; try done.
  - intros _. right.
    eapply readyState_after_insert; [exact Hws|by rewrite E1|exact Hc|exact E6].
  - intros c' r'. rewrite E6. intros Hl Hne.
    rewrite list_lookup_insert_ne in Hl by congruence. by eapply O3.
Qed.

Lemma orderly_onopen (s : State) (c : nat) (now : Z) :
  orderly s → sockets s !! c = Some CONNECTING →
  orderly (onopen now (set_sockets (<[c := OPEN]> (sockets s)) s)).
Proof.
  intros Ho Hc.
  destruct (orderly_live s c CONNECTING Ho Hc) as [Hws Ht]; [done|].
  assert (Hi : intervals s = []).
  { apply orderly_not_yet_open; [done|]. unfold readyState. by rewrite Hws. }
  destruct Ho as [O1 O2 O3 O4].
  constructor; unfold onopen, readyState; simpl; rewrite ?Hi, ?Ht, ?Hws; simpl.
  - right. by exists (nextTimer s), (Pos.succ (nextTimer s)).
  - intros _. left. apply list_lookup_insert_eq. by eapply lookup_lt_Some.
  - intros c' r Hl Hne.
    rewrite list_lookup_insert_ne in Hl by congruence.
    eapply O3; [done|congruence].
  - done.
Qed.

Lemma orderly_onclose (s : State) (c : nat) (r : ReadyState) :
  orderly s → sockets s !! c = Some r → r ≠ CLOSED →
  orderly (onclose (set_sockets (<[c := CLOSED]> (sockets s)) s)).
Proof.
  intros Ho Hc Hr.
  destruct (orderly_live s c r Ho Hc Hr) as [Hws Ht].
  set (s0 := set_sockets (<[c := CLOSED]> (sockets s)) s).
  assert (Hall : ∀ c' r', sockets s0 !! c' = Some r' → r' = CLOSED).
  { intros c' r'. simpl. destruct (decide (c' = c)) as [->|Hne].
    - rewrite list_lookup_insert_eq by (by eapply lookup_lt_Some). congruence.
    - rewrite list_lookup_insert_ne by done. intros Hl.
      eapply (others_closed s Ho); [done|congruence]. }
  destruct (onclose_wiring s0) as (E1 & E2 & E3 & E4 & E5 & E6).
  assert (Hi : intervals (onclose s0) = []).
  { by eapply (orderly_clear_timers s). }
  constructor; unfold readyState; rewrite ?E1, ?E2, ?Hi; try done.
  - by left.
  - intros c' r' Hl _. by eapply Hall.
  - intros Hne. split_and!; [done|done|].
    destruct E6 as [E6|[d E6]]; rewrite E6 in *; simpl in *;
      rewrite Ht in *; [done|by eauto].
Qed.

Lemma filter_single_out (t : positive * Z) (id : positive) :
  id ∈ [t].*1 → filter (λ t' : positive * Z, t'.1 ≠ id) [t] = [].
Proof.
  intros ->%list_elem_of_singleton. rewrite filter_cons. simpl.
  by rewrite decide_False by (by intros ?).
Qed.

Lemma orderly_timeout (s : State) (id : positive) (throws : bool) :
  orderly s → pending id s = true →
  orderly (reconnect_callback throws (clearTimeout id s)).
Proof.
  intros Ho Hp. unfold pending in Hp. apply bool_decide_eq_true in Hp.
  assert (Hne : timeouts s ≠ []) by (intros E; rewrite E in Hp; inversion Hp).
  destruct (one_pending s Ho Hne) as (Hi & Hall & t & Ht).
  rewrite Ht in Hp.
  set (s0 := clearTimeout id s).
  assert (Ht0 : timeouts s0 = []).
  { subst s0. unfold clearTimeout. simpl. rewrite Ht. by apply filter_single_out. }
  assert (Ho0 : orderly s0).
  { destruct Ho as [O1 O2 O3 O4]. by constructor. }
  unfold reconnect_callback. destruct (shouldReconnect s0) eqn:Hsr; [|done].
  set (s1 := set_reconnectAttempts (reconnectAttempts s0 + 1) s0).
  assert (Ho1 : orderly s1) by (by apply (orderly_ext s0)).
  unfold connectWebSocket. destruct throws.
  - by apply orderly_schedule.
  - constructor; unfold readyState; simpl.
    + left. exact Hi.
    + intros Hn. by destruct Hn.
    + intros c r Hl Hws.
      apply lookup_app_Some in Hl as [Hl|[Hge Hl]]; [by eapply Hall|].
      destruct (decide (c = length (sockets s))) as [->|Hc]; [done|].
      apply lookup_lt_Some in Hl. simpl in Hl. lia.
    + intros Hn. destruct Hn. rewrite Ht. by apply filter_single_out.
Qed.

Lemma orderly_cleanup (s : State) : orderly s → orderly (cleanup s).
Proof.
  intros Ho. unfold cleanup. apply orderly_ws_close.
  set (s1 := set_shouldReconnect false s).
  set (s2 := match reconnectTimeout s1 with
             | Some t => clearTimeout t s1 | None => s1 end).
  set (s3 := match heartbeatInterval s2 with
             | Some h => clearInterval h s2 | None => s2 end).
  set (s4 := match connectionCheckInterval s3 with
             | Some k => clearInterval k s3 | None => s3 end).
  assert (W2 : ws s2 = ws s ∧ sockets s2 = sockets s
               ∧ heartbeatInterval s2 = heartbeatInterval s
               ∧ connectionCheckInterval s2 = connectionCheckInterval s
               ∧ intervals s2 = intervals s
               ∧ (timeouts s2 = timeouts s
                  ∨ ∃ t, timeouts s2 = filter (λ t', t'.1 ≠ t) (timeouts s))).
  { subst s2 s1. simpl. destruct (reconnectTimeout s); simpl;
      split_and!; try done; [right; eauto|by left]. }
  destruct W2 as (A1 & A2 & A3 & A4 & A5 & A6).
  assert (W4 : ws s4 = ws s ∧ sockets s4 = sockets s
               ∧ timeouts s4 = timeouts s2 ∧ intervals s4 = []).
  { assert (Hi : intervals s4 = []).
    { apply (orderly_clear_timers s _ Ho). subst s4 s3.
      rewrite <- A3, <- A4, <- A5.
      destruct (heartbeatInterval s2) as [h|] eqn:Hh; simpl; rewrite ?Hh;
        destruct (connectionCheckInterval s2) as [k|] eqn:Hk; simpl;
        rewrite ?Hk; done. }
    subst s4 s3.
    destruct (heartbeatInterval s2) as [h|] eqn:Hh; simpl in *; rewrite ?Hh in *;
      destruct (connectionCheckInterval s2) as [k|] eqn:Hk; simpl in *;
      rewrite ?Hk in *; done. }
  destruct W4 as (B1 & B2 & B3 & B4).
  constructor; unfold readyState; rewrite ?B1, ?B2, ?B3, ?B4; try done.
  - by left.
  - eapply others_closed; done.
  - intros Hne.
    assert (Hne' : timeouts s ≠ []).
    { intros E. destruct A6 as [A6|[t A6]]; rewrite A6, E in Hne; done. }
    destruct (one_pending s Ho Hne') as (_ & Hall & t & Ht).
    split_and!; [done|done|].
    destruct A6 as [A6|[t' A6]]; rewrite A6, Ht in *; [by eauto|].
    rewrite filter_cons in *. simpl in *. case_decide; [by eauto|done].
Qed.

Lemma orderly_step (s : State) (e : Event) :
  orderly s → send_fails e = false → orderly (step s e).
Proof.
  intros Ho He. destruct e as [c now|c now p env|c|c|id throws|id b|id now|];
    simpl.
  - case_bool_decide; [by apply orderly_onopen|done].
  - case_bool_decide; [|done]. unfold onmessage.
    destruct (decode _ _ _). by apply (orderly_ext s).
  - destruct (sockets s !! c) as [r|] eqn:Hc; [|done].
    destruct r; try done; by eapply orderly_onclose.
  - done.
  - destruct (pending id s) eqn:Hp; [by apply orderly_timeout|done].
  - destruct b; [done|]. destruct (running _ _ _); [|done].
    by rewrite heartbeat_sent.
  - destruct (running _ _ _); [|done]. unfold connection_check.
    match goal with |- context [if ?b then _ else _] => destruct b end;
      [by apply orderly_ws_close|done].
  - by apply orderly_cleanup.
Qed.

Lemma orderly_mount (now : Z) (throws : bool) : orderly (mount now throws).
Proof.
  destruct throws.
  - constructor; unfold readyState; simpl; try done; [by left|].
    intros _. split_and!; [done|done|by eauto].
  - constructor; unfold readyState; simpl; try done; [by left|].
    intros [|c] r; simpl; [done|]. by intros [=].
Qed.





(** What is left out of C8 above: when [ws.send('ping')] throws, the
    heartbeat callback schedules a reconnect and the 'close' callback
    schedules another; both run, two sockets open, and two timer sets
    run side by side, the first out of reach of the variables. *)
Example timer_sets_overlap_after_failed_ping :
  count_body Heartbeat (run (mount 0 false) failed_ping_run) = 2%nat
  ∧ count_body ConnectionCheck (run (mount 0 false) failed_ping_run) = 2%nat
  ∧ heartbeatInterval (run (mount 0 false) failed_ping_run)
    = Some 7%positive
  ∧ sockets (run (mount 0 false) failed_ping_run) = [CLOSED; OPEN; OPEN].
Proof. by vm_compute. Qed.


(** *** An attempt that hangs *)

Lemma hanging_step (c : nat) (s : State) (e : Event) :
  hanging c s → is_open_of c e = false → is_close_of c e = false →
  hanging c (step s e)
  ∧ scheduled (step s e) = scheduled s
  ∧ length (sockets (step s e)) = length (sockets s).
Proof.
  intros [Hws Hst Hoth Hi Ht] Ho Hc.
  assert (Hidle : hanging c s ∧ scheduled s = scheduled s
                   ∧ length (sockets s) = length (sockets s))
    by (by split_and!; [constructor|..]).
  assert (Hdead : ∀ c' r, sockets s !! c' = Some r → c' ≠ c → r = CLOSED)
    by done.
  assert (Hnot_open : ∀ c', sockets s !! c' ≠ Some OPEN).
  { intros c' Hc'. destruct (decide (c' = c)) as [->|Hne].
    - destruct Hst; congruence.
    - by specialize (Hoth c' OPEN Hc' Hne). }
  destruct e as [c' now|c' now p env|c'|c'|id throws|id b|id now|]; simpl.
  - case_bool_decide as Hc'; [|done].
    simpl in Ho. apply bool_decide_eq_false in Ho.
    by specialize (Hoth c' CONNECTING Hc' Ho).
  - case_bool_decide as Hc'; [|done]. by destruct (Hnot_open c').
  - simpl in Hc. apply bool_decide_eq_false in Hc.
    destruct (sockets s !! c') as [r|] eqn:Hc'; [|done].
    specialize (Hoth c' r Hc' Hc). by subst r.
  - done.
  - unfold pending. rewrite Ht. done.
  - unfold running. by rewrite Hi.
  - unfold running. by rewrite Hi.
  - unfold cleanup.
    set (s1 := set_shouldReconnect false s).
    set (s2 := match reconnectTimeout s1 with
               | Some t => clearTimeout t s1 | None => s1 end).
    set (s3 := match heartbeatInterval s2 with
               | Some h => clearInterval h s2 | None => s2 end).
    set (s4 := match connectionCheckInterval s3 with
               | Some k => clearInterval k s3 | None => s3 end).
    assert (W : ws s4 = ws s ∧ sockets s4 = sockets s ∧ intervals s4 = []
                ∧ timeouts s4 = [] ∧ scheduled s4 = scheduled s).
    { subst s4 s3 s2 s1. simpl.
      destruct (reconnectTimeout s); simpl;
        destruct (heartbeatInterval s); simpl;
        destruct (connectionCheckInterval s); simpl;
        rewrite ?Hi, ?Ht; done. }
    destruct W as (W1 & W2 & W3 & W4 & W5).
    unfold ws_close, socket_close. rewrite W1, Hws, W2.
    destruct Hst as [Hst|Hst]; rewrite Hst; simpl.
    + split_and!; [constructor; simpl| |]; rewrite ?length_insert; try done.
      * congruence.
      * right. apply list_lookup_insert_eq. by eapply lookup_lt_Some.
      * intros c' r Hl Hne.
        rewrite list_lookup_insert_ne in Hl by done. by eapply Hoth.
    + split_and!; [constructor| |]; rewrite ?W1, ?W2; try done.
      by right.
Qed.

Lemma hanging_run (c : nat) (tr : list Event) (s : State) :
  hanging c s →
  forallb (λ e, negb (is_open_of c e) && negb (is_close_of c e)) tr = true →
  hanging c (run s tr)
  ∧ scheduled (run s tr) = scheduled s
  ∧ length (sockets (run s tr)) = length (sockets s).
Proof.
  revert s. induction tr as [|e tr IH]; intros s Hs Htr; [done|].
  simpl in Htr. apply andb_prop in Htr as [He Htr].
  apply andb_prop in He as [Ho Hc]. apply negb_true_iff in Ho, Hc.
  destruct (hanging_step c s e Hs Ho Hc) as (H1 & H2 & H3).
  destruct (IH _ H1 Htr) as (I1 & I2 & I3).
  simpl. split_and!; [done|congruence|congruence].
Qed.

Lemma step_starts_no_timer (s : State) (e : Event) (iv : Interval) :
  is_open e = false → iv ∈ intervals (step s e) → iv ∈ intervals s.
Proof.
  intros He. destruct e as [c now|c now p env|c|c|id throws|id b|id now|];
    try done; simpl.
  - case_bool_decide; [|done]. unfold onmessage. by destruct (decode _ _ _).
  - destruct (sockets s !! c) as [[]|]; try done;
      destruct (onclose_wiring (set_sockets (<[c := CLOSED]> (sockets s)) s))
        as (_ & _ & _ & _ & -> & _); simpl;
      destruct (connectionCheckInterval s), (heartbeatInterval s); simpl;
      rewrite ?list_elem_of_filter; tauto.
  - destruct (pending id s); [|done].
    unfold reconnect_callback, connectWebSocket.
    destruct (shouldReconnect _); [|done].
    destruct throws; [|done].
    by destruct (scheduleReconnect_wiring
      (set_reconnectAttempts (reconnectAttempts (clearTimeout id s) + 1)
         (clearTimeout id s))) as (_ & _ & _ & _ & -> & _).
  - destruct (running _ _ _); [|done]. unfold heartbeat_tick.
    case_bool_decide; [|done]. destruct b; [|done].
    destruct (shouldReconnect s); [|done].
    destruct (scheduleReconnect_wiring (ws_close s)) as (_ & _ & _ & _ & -> & _).
    by destruct (ws_close_wiring s) as (_ & _ & _ & -> & _).
  - destruct (running _ _ _); [|done]. unfold connection_check.
    match goal with |- context [if ?b then _ else _] => destruct b end; [|done].
    by destruct (ws_close_wiring s) as (_ & _ & _ & -> & _).
  - unfold cleanup.
    match goal with |- context [ws_close ?x] =>
      destruct (ws_close_wiring x) as (_ & _ & _ & -> & _) end.
    simpl. destruct (reconnectTimeout s); simpl;
      destruct (heartbeatInterval s); simpl;
      destruct (connectionCheckInterval s); simpl;
      rewrite ?list_elem_of_filter; tauto.
Qed.

(** C10.  No callback but the 'open' one starts a timer: any other
    event leaves only timers that were already running.  So for an
    attempt that hangs (its socket in [ws] not open, every other socket
    closed, no timer running, no reconnect pending), over any run in
    which that socket gets neither 'open' nor 'close': no timer runs,
    no reconnect is pending or was scheduled, no socket is made, and
    the socket never reports OPEN, so the staleness callback has
    nothing to close. *)
Theorem hung_attempt_stays_hung (c : nat) (s : State) (tr : list Event) :
  (∀ s0 e iv, is_open e = false →
     iv ∈ intervals (step s0 e) → iv ∈ intervals s0)
  ∧ (hanging c s →
     forallb (λ e, negb (is_open_of c e) && negb (is_close_of c e)) tr = true →
     intervals (run s tr) = []
     ∧ timeouts (run s tr) = []
     ∧ scheduled (run s tr) = scheduled s
     ∧ length (sockets (run s tr)) = length (sockets s)
     ∧ readyState (run s tr) ≠ Some OPEN).
Proof.
  split; [intros s0 e iv; apply step_starts_no_timer|].
  intros Hs Htr.
  destruct (hanging_run c tr s Hs Htr) as ([Hws Hst _ Hi Ht] & Hsch & Hlen).
  split_and!; [done..|].
  unfold readyState. rewrite Hws. simpl. destruct Hst; congruence.
Qed.

(** In a run without a failed send, a socket in [ws] that is still
    connecting is such an attempt. *)
Lemma orderly_connecting_hanging (c : nat) (s : State) :
  orderly s → ws s = Some c → sockets s !! c = Some CONNECTING →
  hanging c s.
Proof.
  intros Ho Hws Hc.
  destruct (orderly_live s c CONNECTING Ho Hc) as [_ Ht]; [done|].
  constructor; try done.
  - by left.
  - intros c' r Hl Hne. eapply (others_closed s Ho); [done|congruence].
  - apply orderly_not_yet_open; [done|]. unfold readyState. by rewrite Hws.
Qed.

Lemma mount_hanging (now : Z) : hanging 0 (mount now false).
Proof.
  constructor; simpl; try done; [by left|].
  intros [|c'] r; simpl; [done|]. by intros [=].
Qed.

Lemma hung_attempt_stays_hung_witness :
  hanging 0 (mount 0 false)
  ∧ forallb (λ e, negb (is_open_of 0 e) && negb (is_close_of 0 e)) hung_run
    = true
  ∧ intervals (run (mount 0 false) hung_run) = []
  ∧ scheduled (run (mount 0 false) hung_run) = [].
Proof.
  split; [apply mount_hanging|]. split; [done|].
  destruct (hung_attempt_stays_hung 0 (mount 0 false) hung_run) as [_ H].
  destruct (H (mount_hanging 0) eq_refl) as (Hi & _ & Hs & _).
  split; [exact Hi | exact Hs].
Defined.

End DownstreamFacts.

(** * Further facts: text wrapping, the scene loops, the ship
      and its controls *)
Section TextWrapperFacts.
Import TextWrapper.
Context {Width : Type} (measureText : string → Width)
        (less : Width → Width → bool).

Lemma split_not_nil (text : string) : split text ≠ [].
Proof.
  destruct text as [|c rest]; simpl; [done|].
  destruct (Ascii.eqb c Ascii.Space); [done|]. by destruct (split rest).
Qed.

Lemma join_cons (l : string) (rest : list string) :
  rest ≠ [] → join (l :: rest) = l +:+ " " +:+ join rest.
Proof. by destruct rest. Qed.

Lemma join_split (text : string) : join (split text) = text.
Proof.
  induction text as [|c rest IH]; [done|]. simpl.
  destruct (Ascii.eqb_spec c Ascii.Space) as [->|Hc].
  - rewrite join_cons by apply split_not_nil. by rewrite IH.
  - pose proof (split_not_nil rest) as Hne.
    destruct (split rest) as [|w ws]; [done|].
    destruct ws as [|w' ws]; simpl in *.
    + rewrite <- IH. reflexivity.
    + rewrite <- IH. reflexivity.
Qed.

Lemma app_assoc_s (a b c : string) : (a +:+ b) +:+ c = a +:+ (b +:+ c).
Proof.
  induction a as [|ch a IH]; [done|].
  change (String ch ((a +:+ b) +:+ c) = String ch (a +:+ b +:+ c)).
  by rewrite IH.
Qed.

Lemma join_app (l1 l2 : list string) :
  l1 ≠ [] → l2 ≠ [] → join (l1 ++ l2) = join l1 +:+ " " +:+ join l2.
Proof.
  intros H1 H2. induction l1 as [|a l1 IH]; [done|].
  destruct l1 as [|b l1].
  - simpl. by destruct l2.
  - change ((a :: b :: l1) ++ l2) with (a :: ((b :: l1) ++ l2)).
    rewrite join_cons by done. rewrite IH by done.
    rewrite (join_cons a (b :: l1)) by done.
    by rewrite !app_assoc_s.
Qed.

Lemma join_snoc_word (lines : list string) (line word : string) :
  join (lines ++ [line +:+ " " +:+ word]) = join (lines ++ [line; word]).
Proof.
  destruct lines as [|l lines]; [done|].
  by rewrite !join_app.
Qed.

Lemma join_wrap_from maxWidth (words : list string) (line : string)
    (lines : list string) :
  join (wrap_from measureText less maxWidth line lines words)
  = join (lines ++ line :: words).
Proof.
  revert line lines. induction words as [|w ws IH]; intros line lines; [done|].
  simpl. destruct (less _ _).
  - rewrite IH.
    destruct ws as [|w' ws].
    + apply join_snoc_word.
    + change ((line +:+ " " +:+ w) :: w' :: ws)
        with ([line +:+ " " +:+ w] ++ (w' :: ws)).
      change (line :: w :: w' :: ws) with ([line; w] ++ (w' :: ws)).
      rewrite !app_assoc.
      rewrite (join_app (lines ++ [line +:+ " " +:+ w])) by (try done; by destruct lines).
      rewrite (join_app (lines ++ [line; w])) by (try done; by destruct lines).
      by rewrite join_snoc_word.
  - rewrite IH. by rewrite <- app_assoc.
Qed.

Lemma wrap_from_not_nil maxWidth (words : list string) (line : string)
    (lines : list string) :
  wrap_from measureText less maxWidth line lines words ≠ [].
Proof.
  revert line lines. induction words as [|w ws IH]; intros line lines; simpl.
  - by intros [_ ?]%app_eq_nil.
  - destruct (less _ _); apply IH.
Qed.

(** X7.  Wrapping loses nothing: the lines [wrapText] returns, joined
    by single spaces, are the text it was given, whatever the
    measure; and it always returns at least one line. *)
Theorem wrapText_join (text : string) (maxWidth : Width) :
  join (wrapText measureText less text maxWidth) = text
  ∧ wrapText measureText less text maxWidth ≠ [].
Proof.
  unfold wrapText. pose proof (split_not_nil text) as Hne.
  pose proof (join_split text) as Hjs.
  destruct (split text) as [|w ws]; [done|]. split.
  - by rewrite join_wrap_from.
  - apply wrap_from_not_nil.
Qed.

Lemma split_atomic (text : string) :
  Forall (λ w, split w = [w]) (split text).
Proof.
  induction text as [|c rest IH]; simpl.
  - by constructor.
  - destruct (Ascii.eqb_spec c Ascii.Space) as [->|Hc].
    + by constructor.
    + pose proof (split_not_nil rest) as Hne.
      destruct (split rest) as [|w ws]; [done|].
      inversion IH as [|? ? Hw Hws]; subst. constructor; [|done].
      simpl. destruct (Ascii.eqb_spec c Ascii.Space); [done|]. by rewrite Hw.
Qed.

Lemma wrap_from_fits maxWidth (words : list string) (line : string)
    (lines : list string) :
  Forall (λ w, split w = [w]) words →
  line_fits measureText less maxWidth line →
  Forall (line_fits measureText less maxWidth) lines →
  Forall (line_fits measureText less maxWidth)
    (wrap_from measureText less maxWidth line lines words).
Proof.
  revert line lines.
  induction words as [|w ws IH]; intros line lines Hws Hline Hlines; simpl.
  - apply Forall_app. split; [done|]. by constructor.
  - inversion Hws as [|? ? Hw Hws']; subst.
    destruct (less _ _) eqn:Hless.
    + apply IH; [done| |done]. by right.
    + apply IH; [done| |].
      * by left.
      * apply Forall_app. split; [done|]. by constructor.
Qed.

(** X8.  Every line [wrapText] returns is one unbroken word or passed
    the width test; [createMessage] draws the first ten lines at most. *)
Theorem wrapText_lines_fit (text : string) (maxWidth : Width) :
  Forall (line_fits measureText less maxWidth)
    (wrapText measureText less text maxWidth)
  ∧ drawn_lines measureText less text maxWidth
    = take 10 (wrapText measureText less text maxWidth)
  ∧ (length (drawn_lines measureText less text maxWidth) ≤ 10)%nat.
Proof.
  assert (Hfit : Forall (line_fits measureText less maxWidth)
                   (wrapText measureText less text maxWidth)).
  { unfold wrapText. pose proof (split_atomic text) as Hat.
    destruct (split text) as [|w ws]; [done|].
    inversion Hat; subst. apply wrap_from_fits; [done| |done]. by left. }
  assert (Hdrawn : drawn_lines measureText less text maxWidth
            = take 10 (wrapText measureText less text maxWidth)).
  { unfold drawn_lines. simpl.
    destruct (Nat.ltb_spec 10 (length (wrapText measureText less text maxWidth)));
      [done|]. by rewrite take_ge. }
  split_and!; [done|done|]. rewrite Hdrawn, length_take. lia.
Qed.
End TextWrapperFacts.

Section SweepFacts.
Import Sweep.
Context {A : Type} (expired : A → bool) (advance : A → A).

Lemma sweep_from_app (pre suf : list A) :
  sweep_from expired advance (length pre) (pre ++ suf)
  = (advance <$> filter (λ x, expired x = false) pre) ++ suf.
Proof.
  revert suf. induction pre as [|x pre IH] using rev_ind; intros suf; [done|].
  rewrite length_app. simpl. rewrite Nat.add_1_r. simpl.
  unfold visit. rewrite <- app_assoc. simpl.
  rewrite list_lookup_middle by done.
  rewrite filter_app, fmap_app, filter_cons, filter_nil.
  destruct (expired x) eqn:Hx; simpl.
  - rewrite app_nil_r, <- (IH suf). f_equal. apply delete_middle.
  - rewrite <- app_assoc. simpl. rewrite <- (IH (advance x :: suf)). f_equal.
    by rewrite (insert_app_r_alt pre (x :: suf) (length pre)), Nat.sub_diag.
Qed.

Lemma sweep_filter (arr : list A) :
  sweep expired advance arr
  = advance <$> filter (λ x, expired x = false) arr.
Proof.
  unfold sweep. rewrite <- (app_nil_r arr) at 2.
  by rewrite sweep_from_app, app_nil_r.
Qed.
End SweepFacts.

Section EffectsFacts.
Import Effects.
Context {Mesh Frame : Type} (faded : Frame → Z → Z → Mesh → Mesh).

(** X9.  The particle loop of [updateScene], which splices while it
    walks backwards, keeps exactly the particles whose age is at most
    their lifetime, in their old order, each faded once: no particle is
    skipped because another was removed. *)
Theorem update_particles_keeps_the_young (frame : Frame) (currentTime : Z)
    (particles : list (@ExplosionParticle Mesh)) :
  update_particles faded frame currentTime particles
  = particle_faded faded frame currentTime
      <$> filter (λ p, currentTime - createdTime p ≤ lifetime p) particles.
Proof.
  unfold update_particles. rewrite sweep_filter. f_equal.
  apply list_filter_iff. intros p. unfold particle_expired.
  destruct (Z.ltb_spec (lifetime p) (currentTime - createdTime p));
    split; intros; (done || lia).
Qed.
End EffectsFacts.

Section ArwingFacts.
Import Arwing.
Context {Mesh Frame : Type} (moved : Frame → Mesh → Mesh)
        (leftLaser rightLaser : Clock → Mesh).

Local Abbreviation Ship := (@Arwing.Ship Mesh).
Local Abbreviation update := (Arwing.update moved leftLaser rightLaser).
Local Abbreviation handleCombat := (Arwing.handleCombat leftLaser rightLaser).
Local Abbreviation combat := (Arwing.combat leftLaser rightLaser).
Local Abbreviation firings := (Arwing.firings leftLaser rightLaser).

Lemma updateLasers_filter (frame : Frame) (currentTime : Z) (s : Ship) :
  laserProjectiles (updateLasers moved frame currentTime s)
  = laser_moved moved frame
      <$> filter (λ l, currentTime - createdTime l ≤ lifetime l)
            (laserProjectiles s).
Proof.
  unfold updateLasers. simpl. rewrite sweep_filter. f_equal.
  apply list_filter_iff. intros l. unfold laser_expired.
  destruct (Z.ltb_spec (lifetime l) (currentTime - createdTime l));
    split; intros; (done || lia).
Qed.

Lemma handleCombat_lifetimes (fire : bool) (clock : Clock) (s : Ship) :
  Forall (λ l, lifetime l = 2000) (laserProjectiles s) →
  Forall (λ l, lifetime l = 2000)
    (laserProjectiles (handleCombat fire clock s)).
Proof.
  intros Hs. unfold Arwing.handleCombat. destruct (fires _ _ _); [|done].
  simpl. apply Forall_app. split; [done|]. by repeat constructor.
Qed.

(** X10.  After a frame of [update], the lasers in flight are those,
    of the ones held or just fired, made at most 2000 ms before the
    frame's [currentTime], in their old order, each moved once. *)
Theorem lasers_in_flight (frame : Frame) (fire : bool) (clock : Clock)
    (currentTime : Z) (s : Ship) :
  Forall (λ l, lifetime l = 2000) (laserProjectiles s) →
  laserProjectiles (update frame fire clock currentTime s)
  = laser_moved moved frame
      <$> filter (λ l, currentTime - createdTime l ≤ 2000)
            (laserProjectiles (handleCombat fire clock s))
  ∧ Forall (λ l, lifetime l = 2000 ∧ currentTime - createdTime l ≤ 2000)
      (laserProjectiles (update frame fire clock currentTime s)).
Proof.
  intros Hs. apply (handleCombat_lifetimes fire clock) in Hs.
  unfold Arwing.update. rewrite updateLasers_filter.
  set (ls := laserProjectiles _) in *. clearbody ls. split.
  - f_equal. induction Hs as [|l ls Hl Hls IH]; [done|].
    rewrite !filter_cons, Hl, IH. done.
  - apply Forall_fmap, Forall_forall. intros l [Hl Hin]%list_elem_of_filter.
    rewrite Forall_forall in Hs. specialize (Hs l Hin). simpl. split; [done|lia].
Qed.

Lemma takeDamage_health (url : option string) (s : Ship) :
  health (takeDamage url s).1 = health s - 1
  ∧ ((takeDamage url s).2 = true ↔ health s ≤ 1)
  ∧ collectedUrls (takeDamage url s).1
    = collectedUrls s ++ option_list (kept_url url).
Proof.
  unfold takeDamage. simpl. split; [done|]. split.
  - destruct (Z.leb_spec (health s - 1) 0); split; intros; (done || lia).
  - destruct url as [url|]; simpl; [|by rewrite app_nil_r].
    case_bool_decide; simpl; [by rewrite app_nil_r|done].
Qed.

Lemma hits_snoc (urls : list (option string)) (url : option string) (s : Ship) :
  hits (urls ++ [url]) s = (takeDamage url (hits urls s)).1.
Proof. unfold hits. by rewrite foldl_app. Qed.

Lemma hits_fields (urls : list (option string)) (s : Ship) :
  health (hits urls s) = health s - Z.of_nat (length urls)
  ∧ collectedUrls (hits urls s) = collectedUrls s ++ omap kept_url urls.
Proof.
  induction urls as [|url urls IH] using rev_ind.
  - simpl. split; [lia|by rewrite app_nil_r].
  - rewrite hits_snoc. destruct IH as [IH1 IH2].
    destruct (takeDamage_health url (hits urls s)) as (H1 & _ & H3).
    rewrite H1, H3, IH1, IH2, length_app, omap_app. simpl. split; [lia|].
    rewrite <- app_assoc. repeat f_equal; by destruct (kept_url url).
Qed.

(** X11.  After [resetHealth] (or on a new ship) each collision
    takes one point off 3; [takeDamage] reports destruction on the
    third collision and on every later one, and the health is not
    held at 0. *)
Theorem third_hit_destroys (urls : list (option string))
    (url : option string) (s : Ship) :
  health (hits urls (resetHealth s)) = 3 - Z.of_nat (length urls)
  ∧ ((takeDamage url (hits urls (resetHealth s))).2 = true
     ↔ (2 ≤ length urls)%nat)
  ∧ hits urls (@fresh Mesh) = hits urls (resetHealth fresh).
Proof.
  destruct (hits_fields urls (resetHealth s)) as [Hh _].
  destruct (takeDamage_health url (hits urls (resetHealth s))) as (_ & Hd & _).
  simpl in Hh. unfold maxHealth in Hh. split_and!; [done| |done].
  rewrite Hd, Hh. lia.
Qed.

(** X12.  [getLastCollectedUrl] is the url of the latest collision
    since [resetHealth] that carried a non-empty url, and undefined if
    there was none; it is never the empty string. *)
Theorem last_url_is_last_kept (urls : list (option string)) (s : Ship) :
  getLastCollectedUrl (hits urls (resetHealth s)) = last (omap kept_url urls)
  ∧ (∀ url, getLastCollectedUrl (hits urls (resetHealth s)) = Some url →
            url ≠ "" ∧ Some url ∈ urls).
Proof.
  destruct (hits_fields urls (resetHealth s)) as [_ Hu]. simpl in Hu.
  unfold getLastCollectedUrl. rewrite Hu. split; [done|].
  intros url Hlast.
  assert (Hin : url ∈ omap kept_url urls).
  { apply last_Some in Hlast as [l ->]. apply elem_of_app. right.
    apply list_elem_of_here. }
  apply list_elem_of_omap in Hin as (u & Hu1 & Hu2).
  destruct u as [u|]; [|done]. simpl in Hu2.
  case_bool_decide; [done|]. by simplify_eq.
Qed.

Lemma firings_head (frames : list (bool * Clock)) (s : Ship) :
  match firings frames s with
  | [] => True
  | c :: rest =>
      100 < atTest c - lastFireTime s
      ∧ ∃ frames' s', rest = firings frames' s'
                      ∧ lastFireTime s' = atStamp c
  end.
Proof.
  revert s. induction frames as [|[fire clock] frames IH]; intros s; [done|].
  simpl. destruct (fires fire clock s) eqn:Hf; simpl.
  - split.
    + unfold fires, fireRate in Hf. apply andb_prop in Hf as [_ Hf]. lia.
    + eexists frames, _. split; [done|].
      unfold Arwing.handleCombat. by rewrite Hf.
  - unfold Arwing.handleCombat. rewrite Hf. apply IH.
Qed.


(** X13.  Between two firings in a row, the clock read at the second
    is more than 100 ms past the time stamped at the first, whatever
    frames lie between. *)
Theorem fire_rate_respected (frames : list (bool * Clock)) (s : Ship)
    (before after : list Clock) (c1 c2 : Clock) :
  firings frames s = before ++ c1 :: c2 :: after →
  100 < atTest c2 - atStamp c1.
Proof.
  revert frames s. induction before as [|c before IH]; intros frames s Hf.
  - pose proof (firings_head frames s) as H. rewrite Hf in H. simpl in H.
    destruct H as (_ & frames' & s' & Hrest & Hstamp).
    pose proof (firings_head frames' s') as H'. rewrite <- Hrest in H'.
    destruct H' as [H' _]. by rewrite <- Hstamp.
  - pose proof (firings_head frames s) as H. rewrite Hf in H. simpl in H.
    destruct H as (_ & frames' & s' & Hrest & _).
    by apply (IH frames' s').
Qed.
End ArwingFacts.

Section ControlsFacts.
Import Controls.

Local Abbreviation run := Controls.run.
Local Abbreviation step := Controls.step.

(** Splits on the tests of a listener. *)
Ltac keyed :=
  repeat (case_bool_decide; simplify_eq; simpl; try done).

Lemma step_held_a (h : Handler) (i : Input) :
  aReleased h = false → releases_a i = false →
  aReleased (step h i) = false
  ∧ lastAPress (step h i) = lastAPress h
  ∧ (barrelRollLeft (controls h) = false →
     barrelRollLeft (controls (step h i)) = false).
Proof.
  intros Ha Hi. destruct i as [key now|key|button|button|]; simpl.
  - unfold handleKeyDown. simpl. rewrite Ha. keyed.
    destruct (dReleased h); [|done]. unfold handleDoubleD. simpl.
    by destruct (_ && _).
  - unfold handleKeyUp. simpl. simpl in Hi. keyed.
  - unfold handleMouseDown. by destruct (button =? 0).
  - unfold handleMouseUp. by destruct (button =? 0).
  - by destruct (pendingResets h).
Qed.

(** X15.  While A is held (pressed and not released), nothing that
    happens, key repeats of A included, starts a left barrel roll or
    moves [lastAPress]. *)
Theorem held_key_never_rolls (h : Handler) (inputs : list Input) :
  aReleased h = false →
  barrelRollLeft (controls h) = false →
  forallb (λ i, negb (releases_a i)) inputs = true →
  barrelRollLeft (controls (run h inputs)) = false
  ∧ lastAPress (run h inputs) = lastAPress h.
Proof.
  revert h. induction inputs as [|i inputs IH]; intros h Ha Hb Hin; [done|].
  simpl in Hin. apply andb_prop in Hin as [Hi Hin].
  apply negb_true_iff in Hi.
  destruct (step_held_a h i Ha Hi) as (H1 & H2 & H3).
  simpl. destruct (IH (step h i) H1 (H3 Hb) Hin) as [I1 I2].
  split; [done|congruence].
Qed.

Lemma step_other_keys (h : Handler) (i : Input) :
  touches_a i = false →
  aReleased (step h i) = aReleased h
  ∧ lastAPress (step h i) = lastAPress h
  ∧ (is_reset i = false → barrelRollLeft (controls h) = true →
     barrelRollLeft (controls (step h i)) = true).
Proof.
  intros Hi. destruct i as [key now|key|button|button|]; simpl in *.
  - unfold handleKeyDown. simpl. keyed.
    destruct (dReleased h); [|done]. unfold handleDoubleD. simpl.
    by destruct (_ && _).
  - unfold handleKeyUp. simpl. keyed.
  - unfold handleMouseDown. by destruct (button =? 0).
  - unfold handleMouseUp. by destruct (button =? 0).
  - by destruct (pendingResets h).
Qed.

Lemma run_other_keys (inputs : list Input) (h : Handler) :
  forallb (λ i, negb (touches_a i)) inputs = true →
  aReleased (run h inputs) = aReleased h
  ∧ lastAPress (run h inputs) = lastAPress h.
Proof.
  revert h. induction inputs as [|i inputs IH]; intros h Hin; [done|].
  simpl in Hin. apply andb_prop in Hin as [Hi Hin].
  apply negb_true_iff in Hi.
  destruct (step_other_keys h i Hi) as (H1 & H2 & _).
  simpl. destruct (IH (step h i) Hin) as [I1 I2]. split; congruence.
Qed.

Lemma controls_run_app (h : Handler) (l1 l2 : list Input) :
  run h (l1 ++ l2) = run (run h l1) l2.
Proof. apply foldl_app. Qed.

Lemma keydown_a (now : Z) (h : Handler) :
  aReleased h = true →
  let fired := (now - lastAPress h <? 300) && (0 <? lastAPress h) in
  aReleased (handleKeyDown "a" now h) = false
  ∧ lastAPress (handleKeyDown "a" now h) = (if fired then 0 else now)
  ∧ barrelRollLeft (controls (handleKeyDown "a" now h))
    = fired || barrelRollLeft (controls h).
Proof.
  intros Ha. unfold handleKeyDown. simpl. rewrite Ha.
  unfold handleDoubleA, doubleClickTime. simpl.
  by destruct (_ && _).
Qed.

(** X16.  With no tap on record, A pressed at [t1], released and
    pressed again at [t2], other keys in between or not: the second
    press sets [barrelRollLeft] exactly when [t2 - t1 < 300] and
    [t1 > 0], and then forgets the tap, so a third press starts
    counting anew. *)
Theorem double_tap_rolls (h : Handler) (t1 t2 : Z)
    (held between : list Input) :
  aReleased h = true → lastAPress h = 0 →
  forallb (λ i, negb (touches_a i)) held = true →
  forallb (λ i, negb (touches_a i)) between = true →
  let second := run h (KeyDown "a" t1 :: held ++ KeyUp "a" :: between) in
  let fired := (t2 - t1 <? 300) && (0 <? t1) in
  lastAPress second = t1
  ∧ aReleased second = true
  ∧ barrelRollLeft (controls (step second (KeyDown "a" t2)))
    = fired || barrelRollLeft (controls second)
  ∧ lastAPress (step second (KeyDown "a" t2)) = (if fired then 0 else t2).
Proof.
  intros Ha Hl Hheld Hbetween second fired.
  destruct (keydown_a t1 h Ha) as (A1 & A2 & _).
  rewrite Hl in A2. simpl in A2.
  assert (A2' : lastAPress (handleKeyDown "a" t1 h) = t1).
  { rewrite A2. by destruct (t1 - 0 <? 300). }
  destruct (run_other_keys held (handleKeyDown "a" t1 h) Hheld) as [B1 B2].
  set (h2 := run (handleKeyDown "a" t1 h) held) in *.
  assert (C : aReleased (handleKeyUp "a" h2) = true
              ∧ lastAPress (handleKeyUp "a" h2) = lastAPress h2).
  { unfold handleKeyUp. simpl. done. }
  destruct C as [C1 C2].
  destruct (run_other_keys between (handleKeyUp "a" h2) Hbetween) as [D1 D2].
  assert (Hsecond : second = run (handleKeyUp "a" h2) between).
  { subst second h2. simpl. by rewrite controls_run_app. }
  assert (E1 : lastAPress second = t1) by (rewrite Hsecond; congruence).
  assert (E2 : aReleased second = true) by (rewrite Hsecond; congruence).
  destruct (keydown_a t2 second E2) as (_ & F2 & F3).
  rewrite E1 in F2, F3. by split_and!.
Qed.

Lemma step_latched (h : Handler) (i : Input) :
  pendingResets h = O → is_key_up i = false →
  pendingResets (step h i) = O
  ∧ (barrelRollLeft (controls h) = true →
     barrelRollLeft (controls (step h i)) = true)
  ∧ (barrelRollRight (controls h) = true →
     barrelRollRight (controls (step h i)) = true).
Proof.
  intros Hp Hi. destruct i as [key now|key|button|button|]; simpl in *;
    try done.
  - unfold handleKeyDown. simpl. keyed.
    + destruct (aReleased h); [|done]. unfold handleDoubleA. simpl.
      destruct (_ && _); simpl; by split_and!.
    + destruct (dReleased h); [|done]. unfold handleDoubleD. simpl.
      destruct (_ && _); simpl; by split_and!.
  - unfold handleMouseDown. by destruct (button =? 0).
  - unfold handleMouseUp. by destruct (button =? 0).
  - by rewrite Hp.
Qed.

(** X17.  A roll flag once set stays set until a reset timer runs,
    and those are started by key releases only: with none pending and
    no key released the flag stays.  A key release followed by its
    timer clears both flags. *)
Theorem roll_flag_latched (h : Handler) (inputs : list Input) (key : string) :
  (pendingResets h = O →
   forallb (λ i, negb (is_key_up i)) inputs = true →
   (barrelRollLeft (controls h) = true →
    barrelRollLeft (controls (run h inputs)) = true)
   ∧ (barrelRollRight (controls h) = true →
      barrelRollRight (controls (run h inputs)) = true))
  ∧ barrelRollLeft (controls (run h [KeyUp key; ResetTimer])) = false
  ∧ barrelRollRight (controls (run h [KeyUp key; ResetTimer])) = false.
Proof.
  split; [|by split].
  revert h. induction inputs as [|i inputs IH]; intros h Hp Hin; [done|].
  simpl in Hin. apply andb_prop in Hin as [Hi Hin].
  apply negb_true_iff in Hi.
  destruct (step_latched h i Hp Hi) as (H1 & H2 & H3).
  destruct (IH (step h i) H1 Hin) as [I1 I2]. simpl. split; auto.
Qed.
End ControlsFacts.

(** * Further facts about the relay *)
Section RelayExtras.
Import Relay.
Context {Buffer : Type} (toString : Buffer → string).

Local Abbreviation step := (Relay.step toString).
Local Abbreviation run := (Relay.run toString).
Local Abbreviation Event := (@Relay.Event Buffer).

Lemma closes_snoc (tr : list Event) (e : Event) :
  closes (tr ++ [e]) = (closes tr + (if is_jet_close e then 1 else 0))%nat.
Proof.
  unfold closes. rewrite filter_app, length_app, filter_cons, filter_nil.
  destruct (is_jet_close e); simpl; lia.
Qed.

(** X1.  From boot on, upstream sockets made plus reconnects pending
    equal one plus the 'close' events seen; [jetstreamConnection] is
    never null and is the socket made last, so it is that socket's
    state [/health] would report. *)
Theorem one_socket_per_close (tr : list Event) :
  (length (upstream (run boot tr)) + length (timeouts (run boot tr))
   = 1 + closes tr)%nat
  ∧ jetstreamConnection (run boot tr)
    = Some (length (upstream (run boot tr)) - 1)%nat
  ∧ (jetstream (health (run boot tr)) = true
     ↔ last (upstream (run boot tr)) = Some OPEN).
Proof.
  assert (H : (length (upstream (run boot tr))
               + length (timeouts (run boot tr)) = 1 + closes tr)%nat
              ∧ jetstreamConnection (run boot tr)
                = Some (length (upstream (run boot tr)) - 1)%nat
              ∧ upstream (run boot tr) ≠ []).
  { induction tr as [|e tr IH] using rev_ind; [done|].
    rewrite run_snoc, closes_snoc. destruct IH as (I1 & I2 & I3).
    set (s := run boot tr) in *. clearbody s.
    destruct e; simpl; rewrite ?length_insert, ?length_app; simpl;
      try (split_and!; [lia|done|done]).
    - split_and!; [lia|done|]. intros E. apply I3.
      apply (f_equal length) in E. rewrite length_insert in E.
      by destruct (upstream s).
    - split_and!; [lia|done|]. intros E. apply I3.
      apply (f_equal length) in E. rewrite length_insert in E.
      by destruct (upstream s).
    - destruct (timeouts s) as [|t ts] eqn:Ht; simpl.
      + rewrite Ht. simpl in *. split_and!; [lia|done|done].
      + rewrite ?Ht, ?length_app. simpl in *. split_and!; [lia|f_equal; lia|].
        by intros [_ ?]%app_eq_nil. }
  destruct H as (H1 & H2 & H3). split_and!; [done|done|].
  unfold health, jetstream_open. simpl. rewrite H2.
  rewrite bool_decide_eq_true, last_lookup.
  replace (pred (length (upstream (run boot tr))))
    with (length (upstream (run boot tr)) - 1)%nat by lia. done.
Qed.

Lemma Set_delete_size (h : Handle) (l : list Handle) :
  NoDup l → h ∈ l → S (Set_size (Set_delete h l)) = Set_size l.
Proof.
  unfold Set_delete, Set_size. induction 1 as [|x l Hx Hl IH]; [by intros ?%elem_of_nil|].
  intros Hin. rewrite filter_cons. destruct (decide (x = h)) as [->|Hne].
  - rewrite decide_False by (by intros ?). simpl. f_equal.
    clear IH Hin Hl. induction l as [|y l IH]; [done|].
    apply not_elem_of_cons in Hx as [Hy Hx].
    rewrite filter_cons, decide_True by done. simpl. f_equal. by apply IH.
  - rewrite decide_True by done. simpl. f_equal. apply IH.
    apply elem_of_cons in Hin as [->|?]; done.
Qed.

Lemma Set_delete_absent (h : Handle) (l : list Handle) :
  h ∉ l → Set_delete h l = l.
Proof.
  unfold Set_delete. induction l as [|y l IH]; [done|].
  intros [Hy Hl]%not_elem_of_cons.
  rewrite filter_cons, decide_True by done. f_equal. by apply IH.
Qed.

(** X2.  The client count is the size of the set; a 'connection'
    raises it by one unless the handle is already a member; a 'close'
    or 'error' lowers it by one if the handle is a member and leaves it
    otherwise; 'error' then 'close' removes once. *)
Theorem client_count_moves_by_one (tr : list Event) (h : Handle) :
  let s := run boot tr in
  let n := Set_size (connectedClients s) in
  clients (health s) = n
  ∧ Set_size (connectedClients (step s (Connection h)))
    = (if decide (h ∈ connectedClients s) then n else S n)
  ∧ (∀ e, e = ClientClose h ∨ e = ClientError h →
       (if decide (h ∈ connectedClients s)
        then S (Set_size (connectedClients (step s e))) else
          Set_size (connectedClients (step s e))) = n)
  ∧ connectedClients (run s [ClientError h; ClientClose h])
    = connectedClients (step s (ClientClose h)).
Proof.
  intros s n.
  assert (Hs : NoDup (connectedClients s)) by apply run_NoDup, boot_NoDup.
  split_and!.
  - done.
  - simpl. unfold Set_add. case_decide; [done|].
    unfold Set_size. rewrite length_app. simpl. subst n. unfold Set_size. lia.
  - intros e [-> | ->]; simpl; case_decide;
      (by apply Set_delete_size) || by rewrite Set_delete_absent.
  - simpl. apply Set_delete_absent, Set_delete_not_elem.
Qed.
End RelayExtras.


(** * Further facts about the decoder and the connection manager *)
Section DecoderExtras.
Import Decoder.

(** The callback pushed nothing. *)
Ltac nothing_added :=
  exists []; split; [by rewrite app_nil_r | simpl; lia].

(** X4.  [data.commit?.record?.text] throws for the payload [null]
    and for no other JSON value. *)
Theorem text_lookup_throws_on_null_only (data : JSON) :
  (∃ e, text_of data = inl e) ↔ data = JNull.
Proof.
  split.
  - intros [e He]. destruct data; try done.
  - intros ->. by exists TypeError.
Qed.

Lemma createMessage_appends env text postData objs :
  ∃ l, (createMessage env text postData objs).1 = objs ++ l
       ∧ (length l ≤ 1)%nat.
Proof.
  unfold createMessage.
  destruct (negb (ready env)); simpl; [nothing_added|].
  destruct (_ && _); simpl; [nothing_added|].
  destruct text as [[]|]; simpl; try (nothing_added).
  eexists [_]. split; [done|simpl; lia].
Qed.

Lemma decode_appends (env : RenderEnv) (p : Payload)
    (objs : list MessageObject) :
  ∃ l, (decode env p objs).1 = objs ++ l ∧ (length l ≤ 1)%nat.
Proof.
  unfold decode. destruct p as [|data]; simpl; [nothing_added|].
  destruct (text_of data); simpl; [nothing_added|].
  destruct (truthy _); [apply createMessage_appends|].
  nothing_added.
Qed.

(** X5.  Decoding a payload leaves the objects already held as they
    are and pushes at most one; when it throws it pushes none. *)
Theorem decode_appends_at_most_one (env : RenderEnv) (p : Payload)
    (objs : list MessageObject) :
  ∃ l, (decode env p objs).1 = objs ++ l ∧ (length l ≤ 1)%nat
       ∧ ((decode env p objs).2 ≠ Normal → l = []).
Proof.
  destruct (decode_appends env p objs) as (l & Hl & Hlen).
  destruct (decode env p objs) as [objs' c] eqn:Hd. simpl in *.
  destruct c as [|e].
  - exists l. by split_and!.
  - apply decode_keeps_on_throw in Hd as ->. exists [].
    rewrite app_nil_r. split_and!; [done|simpl; lia|done].
Qed.

(** X6.  A truthy [commit.record.text] that is not a string (a
    number, [true], an array, an object) reaches [wrapText], which
    throws a TypeError; nothing is pushed. *)
Theorem non_string_text_throws (env : RenderEnv) (data : JSON)
    (objs : list MessageObject) :
  data ≠ JNull →
  let text := opt_get "text" (opt_get "record" (js_get "commit" data)) in
  truthy text = true →
  (∀ s, text ≠ Some (JStr s)) →
  ready env = true →
  (wall_of env ≠ -1 → discardDraw env = false) →
  decode env (ParseReturns data) objs = (objs, Throws TypeError).
Proof.
  intros Hdata text Ht Hs Hready Hdis.
  unfold decode. rewrite text_of_not_null by done. fold text. rewrite Ht.
  unfold createMessage. rewrite Hready. simpl.
  assert (negb (wall_of env =? -1) && discardDraw env = false) as ->.
  { destruct (Z.eqb_spec (wall_of env) (-1)); [done|]. simpl. by apply Hdis. }
  destruct text as [[]|]; try done. by destruct (Hs s).
Qed.
End DecoderExtras.

Section DownstreamExtras.
Import Decoder Downstream.

Local Abbreviation run := Downstream.run.
Local Abbreviation step := Downstream.step.
Local Abbreviation Event := Downstream.Event.

(** Splits on the next test of a callback. *)
Ltac test_next :=
  match goal with
  | |- context [if ?b then _ else _] => destruct b eqn:?
  | |- context [match ?x with _ => _ end] => destruct x eqn:?
  end.

Lemma scheduleReconnect_delay (s : State) :
  0 ≤ reconnectAttempts s →
  ∃ l, scheduled (scheduleReconnect s) = scheduled s ++ l
       ∧ Forall (λ d, 2000 ≤ d ≤ 10000) l.
Proof.
  intros Ha. unfold scheduleReconnect, baseReconnectDelay.
  test_next; simpl.
  - exists []. by rewrite app_nil_r.
  - eexists [_]. split; [done|]. constructor; [lia|done].
Qed.

Lemma cleanup_attempts (s : State) :
  reconnectAttempts (cleanup s) = reconnectAttempts s
  ∧ messageObjects (cleanup s) = messageObjects s.
Proof. unfold cleanup, ws_close, socket_close. by repeat (test_next; simpl). Qed.

Lemma scheduleReconnect_objects (s : State) :
  messageObjects (scheduleReconnect s) = messageObjects s.
Proof. unfold scheduleReconnect. by test_next. Qed.

Lemma ws_close_objects (s : State) :
  messageObjects (ws_close s) = messageObjects s.
Proof. unfold ws_close, socket_close. by repeat (test_next; simpl). Qed.

Lemma onclose_objects (s : State) :
  messageObjects (onclose s) = messageObjects s.
Proof.
  unfold onclose, scheduleReconnect. by repeat (test_next; simpl).
Qed.

Lemma step_delays (s : State) (e : Event) :
  0 ≤ reconnectAttempts s →
  0 ≤ reconnectAttempts (step s e)
  ∧ ∃ l, scheduled (step s e) = scheduled s ++ l
         ∧ Forall (λ d, 2000 ≤ d ≤ 10000) l.
Proof.
  intros Ha.
  assert (Hsame : 0 ≤ reconnectAttempts s
            ∧ ∃ l, scheduled s = scheduled s ++ l
                   ∧ Forall (λ d, 2000 ≤ d ≤ 10000) l).
  { split; [done|]. exists []. by rewrite app_nil_r. }
  assert (Hsched : ∀ s', 0 ≤ reconnectAttempts s' →
            scheduled s' = scheduled s →
            0 ≤ reconnectAttempts (scheduleReconnect s')
            ∧ ∃ l, scheduled (scheduleReconnect s') = scheduled s ++ l
                   ∧ Forall (λ d, 2000 ≤ d ≤ 10000) l).
  { intros s' Ha' Hs'.
    destruct (scheduleReconnect_attempts s') as [-> _]. split; [done|].
    rewrite <- Hs'. by apply scheduleReconnect_delay. }
  destruct e as [c now|c now p env|c|c|id throws|id b|id now|]; simpl.
  - test_next; [|done]. unfold onopen. simpl. split; [done|].
    exists []. by rewrite app_nil_r.
  - test_next; [|done]. unfold onmessage. by destruct (decode _ _ _).
  - assert (Hc : ∀ r, let s' := set_sockets (<[c := r]> (sockets s)) s in
              0 ≤ reconnectAttempts (onclose s')
              ∧ ∃ l, scheduled (onclose s') = scheduled s ++ l
                     ∧ Forall (λ d, 2000 ≤ d ≤ 10000) l).
    { intros r s'. destruct (onclose_timers s') as (_ & -> & -> & _).
      destruct (Hsched s') as [_ H]; done. }
    repeat test_next; try done; apply Hc.
  - done.
  - test_next; [|done]. unfold reconnect_callback. simpl.
    test_next; [|done]. unfold connectWebSocket.
    destruct throws; [apply Hsched; simpl; [lia|done]|].
    simpl. split; [lia|]. exists []. by rewrite app_nil_r.
  - test_next; [|done]. unfold heartbeat_tick. repeat test_next; try done.
    destruct (ws_close_rest s) as (_ & E1 & E2 & _).
    apply Hsched; [by rewrite E1|done].
  - test_next; [|done]. unfold connection_check. test_next; [|done].
    destruct (ws_close_rest s) as (_ & -> & -> & _). done.
  - destruct (cleanup_fields s) as (_ & -> & _).
    by destruct (cleanup_attempts s) as [-> _].
Qed.

(** X18.  In every run from the mount, failed sends included, the
    attempt counter is never negative and every reconnect delay
    handed to [setTimeout] lies between 2000 and 10000 ms. *)
Theorem reconnect_delays_bounded (now : Z) (throws : bool) (tr : list Event) :
  0 ≤ reconnectAttempts (run (mount now throws) tr)
  ∧ Forall (λ d, 2000 ≤ d ≤ 10000) (scheduled (run (mount now throws) tr)).
Proof.
  assert (H0 : 0 ≤ reconnectAttempts (mount now throws)
               ∧ Forall (λ d, 2000 ≤ d ≤ 10000)
                   (scheduled (mount now throws))).
  { destruct throws; simpl; [|done]. split; [done|]. by repeat constructor. }
  revert H0. generalize (mount now throws).
  induction tr as [|e tr IH]; intros s [Ha Hs]; [done|].
  simpl. destruct (step_delays s e Ha) as (Ha' & l & Hl & Hb).
  apply IH. split; [done|]. rewrite Hl. by apply Forall_app.
Qed.

Lemma step_objects (s : State) (e : Event) :
  ∃ l, messageObjects (step s e) = messageObjects s ++ l
       ∧ (length l ≤ if is_message e then 1 else 0)%nat.
Proof.
  assert (Hsame : ∀ (s' : State) (b : bool),
            messageObjects s' = messageObjects s →
            ∃ l, messageObjects s' = messageObjects s ++ l
                 ∧ (length l ≤ if b then 1 else 0)%nat).
  { intros s' b ->. exists []. rewrite app_nil_r. split; [done|].
    destruct b; simpl; lia. }
  destruct e as [c now|c now p env|c|c|id throws|id b|id now|]; simpl.
  - apply (Hsame _ false). by test_next.
  - test_next; [|by apply (Hsame _ true)]. unfold onmessage. simpl.
    destruct (decode_appends env p (messageObjects s)) as (l & Hl & Hlen).
    destruct (decode env p (messageObjects s)) as [objs c']. simpl in *.
    by exists l.
  - apply (Hsame _ false). repeat test_next; try done; by rewrite onclose_objects.
  - by apply (Hsame _ false).
  - apply (Hsame _ false). test_next; [|done]. unfold reconnect_callback, connectWebSocket.
    repeat test_next; try done. by rewrite scheduleReconnect_objects.
  - apply (Hsame _ false). test_next; [|done]. unfold heartbeat_tick.
    repeat test_next; try done.
    by rewrite scheduleReconnect_objects, ws_close_objects.
  - apply (Hsame _ false). test_next; [|done]. unfold connection_check.
    test_next; [|done]. apply ws_close_objects.
  - apply (Hsame _ false). by destruct (cleanup_attempts s) as [_ ->].
Qed.

(** X19.  The connection manager never removes or changes a message
    object: over any run the list only grows at its end, by at most
    one object per 'message' event. *)
Theorem messages_only_add_objects (s : State) (tr : list Event) :
  messageObjects s `prefix_of` messageObjects (run s tr)
  ∧ (length (messageObjects (run s tr))
     ≤ length (messageObjects s) + messages tr)%nat.
Proof.
  revert s. induction tr as [|e tr IH]; intros s.
  - simpl. split; [done|lia].
  - destruct (step_objects s e) as (l & Hl & Hlen).
    destruct (IH (step s e)) as [I1 I2]. simpl. split.
    + etrans; [|exact I1]. rewrite Hl. by apply prefix_app_r.
    + rewrite Hl, length_app in I2. unfold messages in *.
      rewrite filter_cons. case_decide as Hd;
        destruct (is_message e); simpl in *; try done; lia.
Qed.
End DownstreamExtras.

Section TeardownExtras.
Import Decoder Downstream.

Local Abbreviation run := Downstream.run.
Local Abbreviation step := Downstream.step.
Local Abbreviation Event := Downstream.Event.

Ltac test_next :=
  match goal with
  | |- context [if ?b then _ else _] => destruct b eqn:?
  | |- context [match ?x with _ => _ end] => destruct x eqn:?
  end.

Lemma capped_ext (s s' : State) :
  reconnectAttempts s' = reconnectAttempts s →
  timeouts s' = timeouts s →
  reconnectTimeout s' = reconnectTimeout s →
  capped s → capped s'.
Proof. unfold capped. by intros -> -> ->. Qed.

Lemma capped_schedule (s : State) :
  timeouts s = [] → reconnectAttempts s ≤ 50 → capped (scheduleReconnect s).
Proof.
  intros Ht Ha. unfold scheduleReconnect, maxReconnectAttempts.
  destruct (negb (shouldReconnect s)); simpl.
  { unfold capped. rewrite Ht. split_and!; [done|done|]. by intros t ?%elem_of_nil. }
  destruct (Z.leb_spec 50 (reconnectAttempts s)); simpl.
  { unfold capped. rewrite Ht. split_and!; [done|done|]. by intros t ?%elem_of_nil. }
  unfold capped. simpl. rewrite Ht. simpl. split_and!; [done|done|].
  by intros t ->%list_elem_of_singleton.
Qed.

Lemma onclose_reconnectTimeout (s : State) :
  reconnectTimeout (onclose s) = reconnectTimeout (scheduleReconnect s).
Proof.
  unfold onclose.
  destruct (heartbeatInterval s) as [h|] eqn:Hh; simpl;
    destruct (connectionCheckInterval s) as [k|] eqn:Hk; simpl;
    rewrite ?Hk; simpl;
    unfold scheduleReconnect; simpl;
    destruct (shouldReconnect s) eqn:Hsr; simpl; try done;
    by destruct (maxReconnectAttempts <=? reconnectAttempts s).
Qed.

Lemma ws_close_reconnectTimeout (s : State) :
  reconnectTimeout (ws_close s) = reconnectTimeout s.
Proof. unfold ws_close, socket_close. by repeat (test_next; simpl). Qed.

Lemma cleanup_wiring (s : State) :
  reconnectTimeout (cleanup s) = reconnectTimeout s
  ∧ intervals (cleanup s)
    = match connectionCheckInterval s with
      | Some k => filter (λ iv, interval_id iv ≠ k)
      | None => id
      end
        (match heartbeatInterval s with
         | Some h => filter (λ iv, interval_id iv ≠ h) (intervals s)
         | None => intervals s
         end)
  ∧ timeouts (cleanup s)
    = match reconnectTimeout s with
      | Some t => filter (λ t', t'.1 ≠ t) (timeouts s)
      | None => timeouts s
      end
  ∧ sockets (cleanup s) = sockets (ws_close s).
Proof.
  unfold cleanup.
  match goal with |- context [ws_close ?x] =>
    rewrite (ws_close_reconnectTimeout x);
    destruct (ws_close_wiring x) as (_ & _ & _ & -> & -> & _) end.
  simpl.
  destruct (reconnectTimeout s) eqn:?; simpl;
    destruct (heartbeatInterval s) eqn:?; simpl;
    destruct (connectionCheckInterval s) eqn:?; simpl; split_and!; try done;
    unfold ws_close, socket_close; simpl; by repeat (test_next; simpl).
Qed.

Lemma capped_step (s : State) (e : Event) :
  orderly s → capped s → send_fails e = false → capped (step s e).
Proof.
  intros Ho Hk He.
  destruct e as [c now|c now p env|c|c|id throws|id b|id now|]; simpl.
  - case_bool_decide as Hc; [|done].
    destruct (orderly_live s c CONNECTING Ho Hc) as [_ Ht]; [done|].
    unfold capped, onopen. simpl. rewrite Ht. split_and!; [lia|done|].
    by intros t ?%elem_of_nil.
  - case_bool_decide; [|done]. unfold onmessage.
    destruct (decode _ _ _). by apply (capped_ext s).
  - destruct (sockets s !! c) as [r|] eqn:Hc; [|done].
    assert (Hr : r ≠ CLOSED →
              capped (onclose (set_sockets (<[c := CLOSED]> (sockets s)) s))).
    { intros Hr. destruct (orderly_live s c r Ho Hc Hr) as [_ Ht].
      set (s0 := set_sockets (<[c := CLOSED]> (sockets s)) s).
      destruct (onclose_timers s0) as (E1 & _ & E2 & _).
      pose proof (onclose_reconnectTimeout s0) as E3.
      apply (capped_ext (scheduleReconnect s0)); try done.
      - by destruct (scheduleReconnect_attempts s0) as [-> _].
      - apply capped_schedule; [done|]. by destruct Hk. }
    destruct r; try done; by apply Hr.
  - done.
  - destruct (pending id s) eqn:Hp; [|done].
    unfold pending in Hp. apply bool_decide_eq_true in Hp.
    assert (Hne : timeouts s ≠ [])
      by (intros E; rewrite E in Hp; inversion Hp).
    destruct (one_pending s Ho Hne) as (_ & _ & t & Ht).
    destruct Hk as (_ & Hlt & _). specialize (Hlt Hne).
    set (s0 := clearTimeout id s).
    assert (Ht0 : timeouts s0 = []).
    { subst s0. unfold clearTimeout. simpl. rewrite Ht in *.
      by apply filter_single_out. }
    assert (Ha0 : reconnectAttempts s0 = reconnectAttempts s) by done.
    clearbody s0.
    unfold reconnect_callback. destruct (shouldReconnect s0).
    + unfold connectWebSocket. destruct throws.
      * apply capped_schedule; simpl; [done|lia].
      * unfold capped. simpl. rewrite Ht0. split_and!; [lia|done|].
        by intros ? ?%elem_of_nil.
    + unfold capped. rewrite Ht0. simpl. split_and!; [lia|done|].
      by intros ? ?%elem_of_nil.
  - destruct b; [done|]. destruct (running _ _ _); [|done].
    by rewrite heartbeat_sent.
  - destruct (running _ _ _); [|done]. unfold connection_check.
    test_next; [|done].
    apply (capped_ext s); [|by destruct (ws_close_wiring s) as (_&_&_&_&->&_)
                           |apply ws_close_reconnectTimeout|done].
    by destruct (ws_close_rest s) as (_ & -> & _).
  - destruct (cleanup_fields s) as (_ & _ & _ & _ & Hsub & _).
    destruct (cleanup_wiring s) as (E1 & _).
    destruct Hk as (K1 & K2 & K3).
    assert (Hattempts : reconnectAttempts (cleanup s) = reconnectAttempts s).
    { unfold cleanup, ws_close, socket_close. by repeat (test_next; simpl). }
    unfold capped. rewrite Hattempts, E1. split_and!; [done| |].
    + intros Hne. apply K2. destruct (timeouts (cleanup s)) as [|t ts] eqn:E;
        [done|]. intros E'. specialize (Hsub t). rewrite E' in Hsub.
      apply elem_of_nil in Hsub; [done|]. apply list_elem_of_here.
    + intros t [[t' d] [-> Hin]]%list_elem_of_fmap. apply K3.
      apply list_elem_of_fmap. exists (t', d). split; [done|]. by apply Hsub.
Qed.

Lemma capped_mount (now : Z) (throws : bool) : capped (mount now throws).
Proof.
  destruct throws; unfold capped; simpl.
  - split_and!; [done|done|]. by intros t ->%list_elem_of_singleton.
  - split_and!; [done|done|]. by intros t ?%elem_of_nil.
Qed.

Lemma capped_run (tr : list Event) (s : State) :
  orderly s → capped s →
  forallb (λ e, negb (send_fails e)) tr = true →
  orderly (run s tr) ∧ capped (run s tr).
Proof.
  revert s. induction tr as [|e tr IH]; intros s Ho Hk Htr; [done|].
  simpl in Htr. apply andb_prop in Htr as [He Htr].
  apply negb_true_iff in He. simpl.
  apply IH; [by apply orderly_step|by apply capped_step|done].
Qed.

(** X20.  In a run from the mount without a failed heartbeat send,
    [reconnectAttempts] never exceeds 50, and while a reconnect is
    pending it is below 50. *)
Theorem attempts_capped_without_failed_send (now : Z) (throws : bool)
    (tr : list Event) :
  forallb (λ e, negb (send_fails e)) tr = true →
  reconnectAttempts (run (mount now throws) tr) ≤ 50
  ∧ (timeouts (run (mount now throws) tr) ≠ [] →
     reconnectAttempts (run (mount now throws) tr) < 50).
Proof.
  intros Htr.
  destruct (capped_run tr (mount now throws)) as [_ (H1 & H2 & _)];
    [apply orderly_mount|apply capped_mount|done|]. done.
Qed.

Lemma ws_close_no_connecting (s : State) :
  (∀ c, sockets s !! c = Some CONNECTING → ws s = Some c) →
  ∀ c, sockets (ws_close s) !! c ≠ Some CONNECTING.
Proof.
  intros Hs c Hc. unfold ws_close, socket_close in Hc.
  destruct (ws s) as [c0|] eqn:Hws.
  - destruct (decide (c = c0)) as [->|Hne].
    + destruct (sockets s !! c0) as [[]|] eqn:H0; simpl in Hc;
        try congruence;
        rewrite list_lookup_insert_eq in Hc
          by (by eapply lookup_lt_Some); done.
    + assert (Hold : sockets s !! c = Some CONNECTING).
      { destruct (sockets s !! c0) as [[]|]; simpl in Hc; try done;
          by rewrite list_lookup_insert_ne in Hc. }
      apply Hs in Hold. congruence.
  - simpl in Hc. apply Hs in Hc. congruence.
Qed.

Lemma silent_cleanup (s : State) : orderly s → capped s → silent (cleanup s).
Proof.
  intros Ho (_ & _ & Hnamed).
  destruct (cleanup_fields s) as (Hsr & _).
  destruct (cleanup_wiring s) as (_ & Hi & Ht & Hs).
  unfold silent. split_and!; [done| | |].
  - by eapply (orderly_clear_timers s).
  - rewrite Ht. destruct (timeouts s) as [|[t d] ts] eqn:E.
    + by destruct (reconnectTimeout s).
    + destruct (one_pending s Ho) as (_ & _ & t' & Hone); [by rewrite E|].
      rewrite ?E in Hone. simplify_eq.
      rewrite (Hnamed t) by (rewrite ?E; apply list_elem_of_here).
      apply filter_single_out. apply list_elem_of_here.
  - rewrite Hs. apply ws_close_no_connecting. intros c Hc.
    destruct (decide (ws s = Some c)) as [|Hne]; [done|].
    by specialize (others_closed s Ho c CONNECTING Hc Hne).
Qed.

Lemma silent_step (s : State) (e : Event) : silent s → silent (step s e).
Proof.
  intros (Hsr & Hi & Ht & Hs).
  destruct e as [c now|c now p env|c|c|id throws|id b|id now|]; simpl.
  - rewrite bool_decide_eq_false_2 by apply Hs. by split_and!.
  - case_bool_decide; [|by split_and!]. unfold onmessage.
    destruct (decode _ _ _). by split_and!.
  - assert (Hc : silent (onclose (set_sockets (<[c := CLOSED]> (sockets s)) s))).
    { set (s0 := set_sockets (<[c := CLOSED]> (sockets s)) s).
      destruct (onclose_timers s0) as (E1 & _ & _ & E2).
      destruct (onclose_wiring s0) as (_ & E3 & _ & _ & E4 & _).
      unfold silent. rewrite E1, E2, E3, E4.
      rewrite scheduleReconnect_idle by (by left). simpl.
      split_and!; [done| |done|].
      - rewrite Hi. by destruct (connectionCheckInterval s),
          (heartbeatInterval s).
      - intros c' Hc'. destruct (decide (c' = c)) as [->|Hne].
        + rewrite list_lookup_insert_eq in Hc'; [done|].
          apply lookup_lt_Some in Hc'. by rewrite length_insert in Hc'.
        + rewrite list_lookup_insert_ne in Hc' by done. by apply (Hs c'). }
    destruct (sockets s !! c) as [[]|]; try done; by split_and!.
  - by split_and!.
  - unfold pending. rewrite Ht. simpl. by split_and!.
  - unfold running. rewrite Hi. simpl. by split_and!.
  - unfold running. rewrite Hi. simpl. by split_and!.
  - destruct (cleanup_fields s) as (Hsr' & _).
    destruct (cleanup_wiring s) as (_ & Hi' & Ht' & Hs').
    unfold silent. rewrite Hi', Ht', Hs', Hi, Ht. split_and!; [done| | |].
    + by destruct (connectionCheckInterval s), (heartbeatInterval s).
    + by destruct (reconnectTimeout s).
    + apply ws_close_no_connecting. intros c Hc. by destruct (Hs c).
Qed.

(** X21.  After the cleanup of a run without a failed heartbeat send,
    whatever events follow, no interval is running and no timeout is
    pending. *)
Theorem no_timer_survives_teardown (now : Z) (throws : bool)
    (tr after : list Event) :
  forallb (λ e, negb (send_fails e)) tr = true →
  intervals (run (cleanup (run (mount now throws) tr)) after) = []
  ∧ timeouts (run (cleanup (run (mount now throws) tr)) after) = [].
Proof.
  intros Htr.
  destruct (capped_run tr (mount now throws)) as [Ho Hk];
    [apply orderly_mount|apply capped_mount|done|].
  assert (Hs : silent (cleanup (run (mount now throws) tr)))
    by (by apply silent_cleanup).
  revert Hs. generalize (cleanup (run (mount now throws) tr)).
  induction after as [|e after IH]; intros s Hs.
  - by destruct Hs as (_ & ? & ? & _).
  - simpl. by apply IH, silent_step.
Qed.
End TeardownExtras.

(** * Runs of the further facts on sample inputs *)

Lemma client_count_moves_by_one_witness :
  Relay.Set_size
    (Relay.connectedClients
       (Relay.step id (Relay.run id Relay.boot Relay.sample_run)
          (Relay.ClientError 1%nat)))
  = 1%nat.
Proof.
  destruct (client_count_moves_by_one id Relay.sample_run 1%nat)
    as (_ & _ & H & _).
  specialize (H (Relay.ClientError 1%nat) (or_intror eq_refl)).
  rewrite decide_True in H by (vm_compute; apply list_elem_of_here).
  apply eq_add_S. rewrite H. reflexivity.
Defined.

Lemma non_string_text_throws_witness :
  Decoder.numeric_post ≠ Decoder.JNull
  ∧ Decoder.decode Decoder.special_env
      (Decoder.ParseReturns Decoder.numeric_post) []
    = ([], Decoder.Throws Decoder.TypeError).
Proof.
  split; [done|].
  apply (non_string_text_throws Decoder.special_env Decoder.numeric_post []);
    done.
Defined.

Lemma lasers_in_flight_witness :
  Forall (λ l, Arwing.lifetime l = 2000)
    (Arwing.laserProjectiles
       (Arwing.combat (λ _, -1) (λ _, 1) Arwing.held_fire (@Arwing.fresh Z)))
  ∧ Forall (λ l, Arwing.lifetime l = 2000 ∧ 2300 - Arwing.createdTime l ≤ 2000)
      (Arwing.laserProjectiles
         (Arwing.update Z.add (λ _, -1) (λ _, 1) 5 false
            (Arwing.mkClock 2300 2300 2300 2300) 2300
            (Arwing.combat (λ _, -1) (λ _, 1) Arwing.held_fire Arwing.fresh))).
Proof.
  assert (H : Forall (λ l, Arwing.lifetime l = 2000)
                (Arwing.laserProjectiles
                   (Arwing.combat (λ _, -1) (λ _, 1) Arwing.held_fire
                      (@Arwing.fresh Z))))
    by (repeat constructor).
  split; [exact H|].
  apply (lasers_in_flight Z.add (λ _, -1) (λ _, 1) 5 false
           (Arwing.mkClock 2300 2300 2300 2300) 2300 _ H).
Defined.

Lemma last_url_is_last_kept_witness :
  Arwing.getLastCollectedUrl
    (Arwing.hits [Some "at://one"; None; Some ""]
       (Arwing.resetHealth (@Arwing.fresh Z)))
  = Some "at://one"
  ∧ Some "at://one" ∈ [Some "at://one"; None; Some ""].
Proof.
  destruct (last_url_is_last_kept (Mesh := Z)
              [Some "at://one"; None; Some ""] Arwing.fresh) as [H1 H2].
  split; [exact H1|]. by apply (H2 "at://one").
Defined.

Lemma fire_rate_respected_witness :
  Arwing.firings (λ _, -1) (λ _, 1) Arwing.held_fire (@Arwing.fresh Z)
  = [] ++ Arwing.mkClock 200 200 201 201
       :: Arwing.mkClock 400 400 400 401 :: []
  ∧ 100 < 400 - 201.
Proof.
  split; [reflexivity|].
  apply (fire_rate_respected (λ _, -1) (λ _, 1) Arwing.held_fire Arwing.fresh [] []
           (Arwing.mkClock 200 200 201 201) (Arwing.mkClock 400 400 400 401)).
  reflexivity.
Defined.

Lemma held_key_never_rolls_witness :
  Controls.aReleased (Controls.handleKeyDown "a" 1000 Controls.initial) = false
  ∧ Controls.barrelRollLeft
      (Controls.controls
         (Controls.run (Controls.handleKeyDown "a" 1000 Controls.initial)
            [Controls.KeyDown "a" 1030; Controls.KeyDown "a" 1060;
             Controls.KeyDown "w" 1070]))
    = false.
Proof.
  split; [done|].
  apply (held_key_never_rolls
           (Controls.handleKeyDown "a" 1000 Controls.initial)
           [Controls.KeyDown "a" 1030; Controls.KeyDown "a" 1060;
            Controls.KeyDown "w" 1070]); done.
Defined.

Lemma double_tap_rolls_witness :
  Controls.barrelRollLeft
    (Controls.controls
       (Controls.step
          (Controls.run Controls.initial
             (Controls.KeyDown "a" 1000
                :: [Controls.KeyDown "w" 1010]
                ++ Controls.KeyUp "a" :: [Controls.KeyUp "w"]))
          (Controls.KeyDown "a" 1200)))
  = true.
Proof.
  destruct (double_tap_rolls Controls.initial 1000 1200
              [Controls.KeyDown "w" 1010] [Controls.KeyUp "w"])
    as (_ & _ & H & _); [done..|].
  rewrite H. reflexivity.
Defined.

Lemma roll_flag_latched_witness :
  Controls.pendingResets Controls.rolled = 0%nat
  ∧ Controls.barrelRollLeft (Controls.controls Controls.rolled) = true
  ∧ Controls.barrelRollLeft
      (Controls.controls
         (Controls.run Controls.rolled
            [Controls.KeyDown "w" 1200; Controls.ResetTimer;
             Controls.MouseDown 0]))
    = true.
Proof.
  split; [done|]. split; [done|].
  destruct (roll_flag_latched Controls.rolled
              [Controls.KeyDown "w" 1200; Controls.ResetTimer;
               Controls.MouseDown 0] "a") as [H _].
  destruct H as [H _]; [done..|]. by apply H.
Defined.

Lemma attempts_capped_without_failed_send_witness :
  forallb (λ e, negb (Downstream.send_fails e)) Downstream.reconnect_run = true
  ∧ Downstream.reconnectAttempts
      (Downstream.run (Downstream.mount 0 false) Downstream.reconnect_run)
    ≤ 50.
Proof.
  split; [done|].
  apply (attempts_capped_without_failed_send 0 false Downstream.reconnect_run).
  done.
Defined.

Lemma no_timer_survives_teardown_witness :
  forallb (λ e, negb (Downstream.send_fails e)) Downstream.stale_run = true
  ∧ Downstream.intervals
      (Downstream.run
         (Downstream.cleanup
            (Downstream.run (Downstream.mount 0 false) Downstream.stale_run))
         [Downstream.EvClose 0; Downstream.EvHeartbeat 1 true])
    = [].
Proof.
  split; [done|].
  apply (no_timer_survives_teardown 0 false Downstream.stale_run
           [Downstream.EvClose 0; Downstream.EvHeartbeat 1 true]).
  done.
Defined.
